(** * autostarter/systems/linux.py: startup-script registrations on Linux

    A shallow embedding of [check], [add], [remove] and [_startup_folder]
    over a model of the part of the operating system they talk to: the
    process environment read by [os.path.expanduser] and a POSIX directory
    tree acted on by [os.path.exists], [os.makedirs], [open]/[write],
    [os.chmod] and [os.remove]. *)

From stdpp Require Import gmap strings list fin_maps.
From Stdlib Require Import ZArith Ascii.


(* ===================================================================== *)
(** ** Literals and strings *)
(* ===================================================================== *)

(** The integer an octal literal such as [0o755] denotes, from its digits. *)
Definition octal (digits : list nat) : Z :=
  foldl (λ acc digit, 8 * acc + Z.of_nat digit)%Z 0%Z digits.

(** The newline character of the Python literals ['\n']. *)
Definition nl : string := String "010"%char EmptyString.

(** [s.split(sep)] for a one-character separator: never the empty list. *)
Fixpoint split_on (sep : ascii) (s : string) : list string :=
  match s with
  | EmptyString => [""]
  | String c s' =>
      if decide (c = sep) then "" :: split_on sep s'
      else match split_on sep s' with
           | [] => [String c ""]
           | x :: xs => String c x :: xs
           end
  end.

(** [c in s]. *)
Fixpoint has_char (c : ascii) (s : string) : bool :=
  match s with
  | EmptyString => false
  | String a s' => bool_decide (a = c) || has_char c s'
  end.

(** An embedded NUL byte: the operating system cannot take such a path. *)
Definition has_nul (s : string) : bool := has_char "000"%char s.

(** [s.rstrip(c)] for a one-character argument. *)
Fixpoint rstrip (c : ascii) (s : string) : string :=
  match s with
  | EmptyString => EmptyString
  | String a s' =>
      match rstrip c s' with
      | EmptyString => if decide (a = c) then EmptyString else String a EmptyString
      | r => String a r
      end
  end.

(** [s[i:]]. *)
Fixpoint drop_str (i : nat) (s : string) : string :=
  match i, s with
  | O, _ => s
  | S i', String _ s' => drop_str i' s'
  | S _, EmptyString => EmptyString
  end.

(** [s[:i]]. *)
Definition take_str (i : nat) (s : string) : string := String.substring 0 i s.

(** [s.startswith(sub)]. *)
Fixpoint starts_with (sub s : string) : bool :=
  match sub, s with
  | EmptyString, _ => true
  | String _ _, EmptyString => false
  | String a sub', String b s' => bool_decide (a = b) && starts_with sub' s'
  end.

(** [sub in s]. *)
Fixpoint infix_str (sub s : string) : bool :=
  starts_with sub s ||
  match s with
  | EmptyString => false
  | String _ s' => infix_str sub s'
  end.

(* ===================================================================== *)
(** ** The process environment and the directory tree *)
(* ===================================================================== *)

(** What the process inherits and this code only reads: the [HOME]
    variable ([None] when unset), the password database (the entry of the
    current user and the entries by name), the working directory and the
    file-creation mask. *)
Record environ := Environ {
  env_HOME : option string;
  pw_dir   : option string;
  pw_nam   : gmap string string;
  cwd      : list string;
  umask    : Z
}.

(** A resolved path is the list of its names, innermost first: [[]] is the
    root and ["init.d"; "etc"] is /etc/init.d.  A node is a directory or
    a regular file with its text and permission bits.  Every node has one
    path: symbolic links, hard links and mount points are not modelled, so
    what is proved about the nodes a call leaves alone is about trees
    without such aliases.  Ownership and the permission bits of directories
    are not modelled either; the caller is taken to be privileged, so no
    access check fails.  Nor are the limits of the system (the length of a
    name, the space on the device): the calls fail here for a missing or
    misplaced node and for a NUL byte only. *)
Inductive node :=
  | Dir
  | File (content : string) (mode : Z).

Abbreviation filesys := (gmap (list string) node).

Record world := World {
  w_env : environ;
  w_fs  : filesys
}.

Definition set_fs (w : world) (fs : filesys) : world :=
  {| w_env := w_env w; w_fs := fs |}.

(** The root always exists and is a directory. *)
Definition lookup_node (fs : filesys) (p : list string) : option node :=
  match p with
  | [] => Some Dir
  | _ => fs !! p
  end.

Definition is_dir (fs : filesys) (p : list string) : Prop :=
  lookup_node fs p = Some Dir.

(** A tree is well formed when every entry sits in a directory. *)
Definition wf_fs (fs : filesys) : Prop :=
  map_Forall (λ p _, is_dir fs (tail p)) fs.

(** [d] is [q] or one of its ancestors: [q] lies at or under [d]. *)
Definition inside (d q : list string) : Prop := d `suffix_of` q.

(* ===================================================================== *)
(** ** Exceptions and the monad of operating-system calls *)
(* ===================================================================== *)

Inductive exn :=
  | FileNotFoundError
  | NotADirectoryError
  | IsADirectoryError
  | FileExistsError
  | ValueError.

Inductive outcome (A : Type) :=
  | Ok (a : A)
  | Raise (e : exn).
Arguments Ok {A} a.
Arguments Raise {A} e.

Definition M (A : Type) : Type := world → outcome A * world.

#[export] Instance M_ret : MRet M := λ A a w, (Ok a, w).

#[export] Instance M_bind : MBind M := λ A B k m w,
  match m w with
  | (Ok a, w') => k a w'
  | (Raise e, w') => (Raise e, w')
  end.

(* ===================================================================== *)
(** ** Path resolution *)
(* ===================================================================== *)

(** One name of a path, taken from the directory [cur]. *)
Definition step (cur : list string) (c : string) : list string :=
  if decide (c = "") then cur
  else if decide (c = ".") then cur
  else if decide (c = "..") then tail cur
  else c :: cur.

(** Where a path leads when every directory on the way exists. *)
Definition canon_from (cur : list string) (comps : list string) : list string :=
  foldl step cur comps.

(** The kernel's walk: a name is looked up only in a directory.  The node
    the path ends at is not looked at: it may be missing. *)
Fixpoint walk (fs : filesys) (cur : list string) (comps : list string)
  : outcome (list string) :=
  match comps with
  | [] => Ok cur
  | c :: rest =>
      match lookup_node fs cur with
      | None => Raise FileNotFoundError
      | Some (File _ _) => Raise NotADirectoryError
      | Some Dir => walk fs (step cur c) rest
      end
  end.

(** An absolute path starts at the root, any other at the working
    directory. *)
Definition start_of (e : environ) (p : string) : list string :=
  match p with
  | String "/"%char _ => []
  | _ => cwd e
  end.

Definition canon (e : environ) (p : string) : list string :=
  canon_from (start_of e p) (split_on "/"%char p).

Definition resolve (w : world) (p : string) : outcome (list string) :=
  if has_nul p then Raise ValueError
  else if decide (p = "") then Raise FileNotFoundError
  else walk (w_fs w) (start_of (w_env w) p) (split_on "/"%char p).

(* ===================================================================== *)
(** ** The library calls *)
(* ===================================================================== *)

(** [os.path.expanduser(path)] of posixpath: a leading [~] or [~user] is
    replaced by the home directory, with its trailing slashes stripped; the
    path is returned as it is when the home directory is unknown. *)
Definition expanduser (e : environ) (path : string) : string :=
  match path with
  | String "~"%char rest =>
      let i := match String.index 0 "/" rest with
               | Some i => i
               | None => String.length rest
               end in
      let userhome :=
        match i with
        | O => match env_HOME e with
               | Some h => Some h
               | None => pw_dir e
               end
        | _ => pw_nam e !! take_str i rest
        end in
      match userhome with
      | None => path
      | Some h =>
          match rstrip "/"%char h +:+ drop_str i rest with
          | EmptyString => "/"
          | r => r
          end
      end
  | _ => path
  end.

Definition os_path_expanduser (path : string) : M string :=
  λ w, (Ok (expanduser (w_env w) path), w).

(** [os.path.exists(path)]: [os.stat] with every failure turned into
    [False]. *)
Definition os_path_exists (path : string) : M bool :=
  λ w, match resolve w path with
       | Ok c => match lookup_node (w_fs w) c with
                 | Some _ => (Ok true, w)
                 | None => (Ok false, w)
                 end
       | Raise _ => (Ok false, w)
       end.

(** [mkdir] of one resolved path that is missing. *)
Definition mkdir_at (fs : filesys) (cur : list string) : outcome filesys :=
  match lookup_node fs (tail cur) with
  | Some Dir => Ok (<[cur := Dir]> fs)
  | Some (File _ _) => Raise NotADirectoryError
  | None => Raise FileNotFoundError
  end.

(** The effect of [os.makedirs(name, exist_ok=True)], name by name from
    the start of the path: a directory that exists is entered, a missing
    one is created, a regular file in the way is an error.  What was
    created before an error stays. *)
Fixpoint mkdirs (fs : filesys) (cur : list string) (comps : list string)
  : outcome unit * filesys :=
  match comps with
  | [] =>
      match lookup_node fs cur with
      | Some Dir => (Ok (), fs)
      | Some (File _ _) => (Raise FileExistsError, fs)
      | None => match mkdir_at fs cur with
                | Ok fs' => (Ok (), fs')
                | Raise e => (Raise e, fs)
                end
      end
  | c :: rest =>
      match lookup_node fs cur with
      | Some Dir => mkdirs fs (step cur c) rest
      | Some (File _ _) => (Raise NotADirectoryError, fs)
      | None => match mkdir_at fs cur with
                | Ok fs' => mkdirs fs' (step cur c) rest
                | Raise e => (Raise e, fs)
                end
      end
  end.

Definition os_makedirs (name : string) : M unit :=
  λ w, if has_nul name then (Raise ValueError, w)
       else if decide (name = "") then (Raise FileNotFoundError, w)
       else match mkdirs (w_fs w) (start_of (w_env w) name) (split_on "/"%char name) with
            | (r, fs') => (r, set_fs w fs')
            end.

(** [open(path, 'w')]: an existing regular file is truncated and keeps its
    permission bits, a missing one is created with 0666 masked by the
    umask.  The handle is the resolved path. *)
Definition open_w (path : string) : M (list string) :=
  λ w, match resolve w path with
       | Raise e => (Raise e, w)
       | Ok c =>
           match lookup_node (w_fs w) c with
           | Some Dir => (Raise IsADirectoryError, w)
           | Some (File _ m) => (Ok c, set_fs w (<[c := File "" m]> (w_fs w)))
           | None =>
               match lookup_node (w_fs w) (tail c) with
               | Some Dir =>
                   let mode := Z.land (octal [6; 6; 6]) (Z.lnot (umask (w_env w))) in
                   (Ok c, set_fs w (<[c := File "" mode]> (w_fs w)))
               | Some (File _ _) => (Raise NotADirectoryError, w)
               | None => (Raise FileNotFoundError, w)
               end
           end
       end.

(** [f.write(text)] on a handle opened for writing; the text is on disk
    when the [with] block ends. *)
Definition f_write (f : list string) (text : string) : M unit :=
  λ w, match w_fs w !! f with
       | Some (File c m) => (Ok (), set_fs w (<[f := File (c +:+ text) m]> (w_fs w)))
       | _ => (Raise ValueError, w)
       end.

(** [os.chmod(path, mode)]. *)
Definition os_chmod (path : string) (mode : Z) : M unit :=
  λ w, match resolve w path with
       | Raise e => (Raise e, w)
       | Ok c =>
           match lookup_node (w_fs w) c with
           | Some (File s _) => (Ok (), set_fs w (<[c := File s mode]> (w_fs w)))
           | Some Dir => (Ok (), w)
           | None => (Raise FileNotFoundError, w)
           end
       end.

(** [os.remove(path)]. *)
Definition os_remove (path : string) : M unit :=
  λ w, match resolve w path with
       | Raise e => (Raise e, w)
       | Ok c =>
           match lookup_node (w_fs w) c with
           | Some (File _ _) => (Ok (), set_fs w (delete c (w_fs w)))
           | Some Dir => (Raise IsADirectoryError, w)
           | None => (Raise FileNotFoundError, w)
           end
       end.

(* ===================================================================== *)
(** ** autostarter.util *)
(* ===================================================================== *)

(** Modelled from the spec: [remove_list] of [autostarter.util], which
    linux.py imports and whose source is not at hand.  Each path of the
    list is deleted in turn; a path that does not exist is nothing to
    remove; any other failure of the deletion propagates; the result is
    [True] when every path was removed or had nothing to remove. *)
Fixpoint remove_list (to_delete : list string) : M bool :=
  match to_delete with
  | [] => mret true
  | p :: rest =>
      present ← os_path_exists p;
      (if (present : bool) then os_remove p else mret ()) ;;
      remove_list rest
  end.

(* ===================================================================== *)
(** ** autostarter/systems/linux.py *)
(* ===================================================================== *)

Definition _startup_folder (system_wide : bool) : M string :=
  if system_wide then mret "/etc/init.d"
  else os_path_expanduser "~/.config/autostart".

Definition check (identifier : string) (system_wide : bool) : M bool :=
  d ← _startup_folder system_wide;
  let start_desktop := d +:+ "/" +:+ identifier +:+ ".desktop" in
  present ← os_path_exists start_desktop;
  if (present : bool) then mret true else mret false.

(** The two texts [add] writes. *)
Definition launcher_text (interpreter script_location arguments : string) : string :=
  "#!/bin/bash" +:+ nl +:+ nl +:+
  interpreter +:+ " " +:+ script_location +:+ " " +:+ arguments +:+ nl.

Definition descriptor_text (identifier start_file : string) : string :=
  "[Desktop Entry]" +:+ nl +:+ "Type=Application" +:+ nl +:+
  "Name=" +:+ identifier +:+ nl +:+ "Exec=" +:+ start_file +:+ ".sh" +:+ nl.

Definition add (identifier script_location interpreter : string)
    (system_wide : bool) (arguments : string) : M unit :=
  start_dir ← _startup_folder system_wide;
  os_makedirs start_dir ;;
  let start_file := start_dir +:+ "/" +:+ identifier in
  (f ← open_w (start_file +:+ ".sh");
   f_write f (launcher_text interpreter script_location arguments)) ;;
  os_chmod (start_file +:+ ".sh") (octal [7; 5; 5]) ;;
  f ← open_w (start_file +:+ ".desktop");
  f_write f (descriptor_text identifier start_file).

Definition remove (identifier : string) (system_wide : bool) : M bool :=
  d1 ← _startup_folder system_wide;
  d2 ← _startup_folder system_wide;
  let to_delete := [d1 +:+ "/" +:+ identifier +:+ ".sh";
                    d2 +:+ "/" +:+ identifier +:+ ".desktop"] in
  remove_list to_delete.

(** The path the resolver returns in the environment [e]. *)
Definition startup_dir (e : environ) (system_wide : bool) : string :=
  match _startup_folder system_wide {| w_env := e; w_fs := ∅ |} with
  | (Ok d, _) => d
  | (Raise _, _) => ""
  end.

#[export] Instance inside_dec : RelDecision inside.
Proof. unfold inside. apply _. Defined.

(** The home directory [expanduser] finds for the current user. *)
Definition home_of (e : environ) : option string :=
  match env_HOME e with
  | Some h => Some h
  | None => pw_dir e
  end.

(** The directories a path passes through, in the order of the walk. *)
Fixpoint visited_from (cur : list string) (comps : list string) : list (list string) :=
  match comps with
  | [] => [cur]
  | c :: rest => cur :: visited_from (step cur c) rest
  end.

Definition visited (e : environ) (p : string) : list (list string) :=
  visited_from (start_of e p) (split_on "/"%char p).

(** The names of an identifier before its last one (none when it has no
    slash), its last name, and the directory the files of the identifier
    are held in when the startup directory is [d]. *)
Definition parent_names (i : string) : list string :=
  removelast (split_on "/"%char i).

Definition base_name (i : string) : string :=
  List.last (split_on "/"%char i) "".

Definition holder (e : environ) (d i : string) : list string :=
  canon_from (canon e d) (parent_names i).

(** The directory holding the files of the identifier can be reached. *)
Definition reaches (w : world) (d i : string) : Prop :=
  has_nul d = false ∧ has_nul i = false
  ∧ walk (w_fs w) (start_of (w_env w) d) (split_on "/"%char d ++ parent_names i)
    = Ok (holder (w_env w) d i)
  ∧ is_dir (w_fs w) (holder (w_env w) d i).

(** [open(path, 'w')] succeeds at a resolved path: a regular file is
    there, or nothing is and the directory above exists. *)
Definition can_write (fs : filesys) (c : list string) : Prop :=
  match lookup_node fs c with
  | Some Dir => False
  | Some (File _ _) => True
  | None => is_dir fs (tail c)
  end.

(** The permission bits a file has after [open(path, 'w')]. *)
Definition mode_after_open (w : world) (c : list string) : Z :=
  match w_fs w !! c with
  | Some (File _ m) => m
  | _ => Z.land (octal [6; 6; 6]) (Z.lnot (umask (w_env w)))
  end.

(** [os.path.exists] as a proposition: the path resolves and a node is
    there. *)
Definition exists_at (w : world) (p : string) : Prop :=
  ∃ c n, resolve w p = Ok c ∧ lookup_node (w_fs w) c = Some n.

(** Equality of worlds and outcomes is decidable, so closed statements
    about concrete machines are settled by evaluation. *)
#[export] Instance node_eq_dec : EqDecision node.
Proof. solve_decision. Defined.

#[export] Instance exn_eq_dec : EqDecision exn.
Proof. solve_decision. Defined.

#[export] Instance outcome_eq_dec `{EqDecision A} : EqDecision (outcome A).
Proof. solve_decision. Defined.

#[export] Instance environ_eq_dec : EqDecision environ.
Proof. solve_decision. Defined.

#[export] Instance world_eq_dec : EqDecision world.
Proof. solve_decision. Defined.

#[export] Instance is_dir_dec fs p : Decision (is_dir fs p).
Proof. unfold is_dir. apply _. Defined.

#[export] Instance wf_fs_dec fs : Decision (wf_fs fs).
Proof. unfold wf_fs. apply _. Defined.

Ltac by_eval :=
  match goal with
  | |- ?P => apply (bool_decide_unpack P); vm_compute; exact I
  end.

(** A machine to run examples on: user [u] with home /home/u, the
    directories /etc, /etc/init.d, /home and /home/u and nothing else. *)
Definition env0 : environ :=
  {| env_HOME := Some "/home/u"; pw_dir := Some "/home/u";
     pw_nam := {[ "u" := "/home/u" ]}; cwd := ["u"; "home"]; umask := octal [0; 2; 2] |}.

Definition fs0 : filesys :=
  <[ ["init.d"; "etc"] := Dir ]> (<[ ["etc"] := Dir ]>
  (<[ ["u"; "home"] := Dir ]> (<[ ["home"] := Dir ]> ∅))).

Definition w0 : world := {| w_env := env0; w_fs := fs0 |}.

(** The same tree for a user whose home directory is /etc/init.d. *)
Definition env_nested : environ :=
  {| env_HOME := Some "/etc/init.d"; pw_dir := Some "/etc/init.d";
     pw_nam := ∅; cwd := []; umask := octal [0; 2; 2] |}.

Definition w_nested : world := {| w_env := env_nested; w_fs := fs0 |}.

(** The tree [fs'] keeps every node of [fs] with its kind: a directory is
    still a directory, a regular file still a regular file. *)
Definition keeps_nodes (fs fs' : filesys) : Prop :=
  ∀ q n, fs !! q = Some n →
    match n with
    | Dir => fs' !! q = Some Dir
    | File _ _ => ∃ s m, fs' !! q = Some (File s m)
    end.


(** The tree of [w0] with a regular file at /etc/init.d. *)
Definition w_blocked : world :=
  set_fs w0 (<[ ["init.d"; "etc"] := File "" (octal [6; 4; 4]) ]> fs0).

(** The machine of [w0] for a process without [HOME] and without an entry
    in the password database. *)
Definition env_homeless : environ :=
  {| env_HOME := None; pw_dir := None; pw_nam := ∅;
     cwd := ["u"; "home"]; umask := octal [0; 2; 2] |}.

Definition w_homeless : world := {| w_env := env_homeless; w_fs := fs0 |}.

Example split_on_ex : split_on "/"%char "/etc/init.d/x.sh" = [""; "etc"; "init.d"; "x.sh"].
Proof. reflexivity. Qed.

Example rstrip_ex : rstrip "/"%char "/home/u//" = "/home/u".
Proof. reflexivity. Qed.

Example expanduser_ex : expanduser env0 "~/.config/autostart" = "/home/u/.config/autostart".
Proof. reflexivity. Qed.

Example expanduser_named : expanduser env0 "~u/x" = "/home/u/x".
Proof. vm_compute. reflexivity. Qed.

Example check_fresh : check "build" false w0 = (Ok false, w0).
Proof. vm_compute. reflexivity. Qed.

Example add_build :
  add "build" "/opt/build.sh" "python3" false "-v" w0
  = (Ok (), set_fs w0
      (<[ ["build.desktop"; "autostart"; ".config"; "u"; "home"] :=
            File ("[Desktop Entry]" +:+ nl +:+ "Type=Application" +:+ nl +:+
                  "Name=build" +:+ nl +:+
                  "Exec=/home/u/.config/autostart/build.sh" +:+ nl) (octal [6; 4; 4]) ]>
      (<[ ["build.sh"; "autostart"; ".config"; "u"; "home"] :=
            File ("#!/bin/bash" +:+ nl +:+ nl +:+ "python3 /opt/build.sh -v" +:+ nl)
                 (octal [7; 5; 5]) ]>
      (<[ ["autostart"; ".config"; "u"; "home"] := Dir ]>
      (<[ [".config"; "u"; "home"] := Dir ]> fs0))))).
Proof. by_eval. Qed.

Example add_needs_directory :
  add "missing/build" "/opt/build.sh" "sh" true "" w0 = (Raise FileNotFoundError, w0).
Proof. by_eval. Qed.

Example add_nul :
  (add (String "000"%char "") "/opt/build.sh" "sh" true "" w0).1 = Raise ValueError.
Proof. by_eval. Qed.

(* ===================================================================== *)
(** ** Strings: splitting and suffixes *)
(* ===================================================================== *)

Lemma split_on_nonempty sep s : split_on sep s ≠ [].
Proof.
  destruct s as [|c s]; simpl; [done|]. case_decide; [done|].
  by destruct (split_on sep s).
Qed.

Lemma split_on_no_sep sep t : has_char sep t = false → split_on sep t = [t].
Proof.
  induction t as [|c t IH]; simpl; [done|].
  intros [Hc Ht]%orb_false_elim. apply bool_decide_eq_false in Hc.
  rewrite decide_False by done. by rewrite IH.
Qed.

(** Splitting at a separator splits the list of names. *)
Lemma split_on_app_sep sep a b :
  split_on sep (a +:+ String sep b) = split_on sep a ++ split_on sep b.
Proof.
  induction a as [|c a IH]; simpl.
  - by rewrite decide_True.
  - case_decide; [by rewrite IH|].
    rewrite IH. pose proof (split_on_nonempty sep a).
    by destruct (split_on sep a).
Qed.

(** A suffix without separator extends the last name. *)
Lemma split_on_app_no_sep sep s t :
  has_char sep t = false →
  ∃ xs x, split_on sep s = xs ++ [x] ∧ split_on sep (s +:+ t) = xs ++ [x +:+ t].
Proof.
  intros Ht. induction s as [|c s (xs & x & Hs & Hst)]; simpl.
  - exists [], "". by rewrite split_on_no_sep.
  - case_decide.
    + exists ("" :: xs), x. by rewrite Hs, Hst.
    + rewrite Hs, Hst. destruct xs as [|y ys]; simpl.
      * by exists [], (String c x).
      * by exists (String c y :: ys), x.
Qed.

Lemma has_char_app c s t : has_char c (s +:+ t) = has_char c s || has_char c t.
Proof. induction s as [|a s IH]; simpl; [done|]. by rewrite IH, orb_assoc. Qed.

Lemma append_inj_l s t1 t2 : s +:+ t1 = s +:+ t2 → t1 = t2.
Proof. induction s; simpl; [done|]. intros [=]. auto. Qed.

Lemma length_append s t : String.length (s +:+ t) = String.length s + String.length t.
Proof. induction s; simpl; [done|]. by f_equal. Qed.

Lemma suffixed_name x t :
  3 ≤ String.length t → x +:+ t ≠ "" ∧ x +:+ t ≠ "." ∧ x +:+ t ≠ "..".
Proof.
  intros Ht. repeat split; intros E; apply (f_equal String.length) in E;
    rewrite length_append in E; simpl in E; lia.
Qed.

(* ===================================================================== *)
(** ** Path resolution *)
(* ===================================================================== *)

Lemma step_name cur c : c ≠ "" → c ≠ "." → c ≠ ".." → step cur c = c :: cur.
Proof. intros. unfold step. by rewrite !decide_False. Qed.

Lemma canon_from_app cur xs ys :
  canon_from cur (xs ++ ys) = canon_from (canon_from cur xs) ys.
Proof. apply foldl_app. Qed.

(** A walk that succeeds ends where the names lead. *)
Lemma walk_canon fs cur comps c : walk fs cur comps = Ok c → c = canon_from cur comps.
Proof.
  revert cur. induction comps as [|x comps IH]; simpl; intros cur H.
  - by injection H.
  - destruct (lookup_node fs cur) as [[|]|]; try done. by apply IH.
Qed.

Lemma walk_app fs cur xs ys :
  walk fs cur (xs ++ ys) =
  match walk fs cur xs with
  | Ok c => walk fs c ys
  | Raise e => Raise e
  end.
Proof.
  revert cur. induction xs as [|x xs IH]; simpl; intros cur; [done|].
  by destruct (lookup_node fs cur) as [[|]|].
Qed.

(** Only directories are walked through, so a walk that succeeds still
    succeeds when every directory is kept. *)
Lemma walk_mono fs fs' cur comps c :
  (∀ q, is_dir fs q → is_dir fs' q) →
  walk fs cur comps = Ok c → walk fs' cur comps = Ok c.
Proof.
  intros Hd. revert cur. induction comps as [|x comps IH]; simpl; intros cur H; [done|].
  destruct (lookup_node fs cur) as [[|]|] eqn:E; try done.
  rewrite (Hd cur E). by apply IH.
Qed.

(** The last name of a path is looked up in a directory. *)
Lemma walk_snoc fs cur xs x c :
  walk fs cur (xs ++ [x]) = Ok c →
  walk fs cur xs = Ok (canon_from cur xs) ∧ is_dir fs (canon_from cur xs)
  ∧ c = step (canon_from cur xs) x.
Proof.
  rewrite walk_app. destruct (walk fs cur xs) as [c0|] eqn:E; [|done].
  apply walk_canon in E as E'. subst c0. simpl.
  unfold is_dir. destruct (lookup_node fs (canon_from cur xs)) as [[|]|]; try done.
  by intros [= <-].
Qed.

Lemma lookup_node_cons fs x p : lookup_node fs (x :: p) = fs !! (x :: p).
Proof. done. Qed.

Lemma lookup_node_insert_ne fs c n q :
  c ≠ q → lookup_node (<[c := n]> fs) q = lookup_node fs q.
Proof. intros. destruct q; [done|]. simpl. by rewrite lookup_insert_ne. Qed.

Lemma lookup_node_insert_eq fs c n : c ≠ [] → lookup_node (<[c := n]> fs) c = Some n.
Proof. intros. destruct c; [done|]. simpl. by rewrite lookup_insert_eq. Qed.

Lemma lookup_node_delete_ne fs c q :
  c ≠ q → lookup_node (delete c fs) q = lookup_node fs q.
Proof. intros. destruct q; [done|]. simpl. by rewrite lookup_delete_ne. Qed.

Lemma lookup_node_delete_eq fs c : c ≠ [] → lookup_node (delete c fs) c = None.
Proof. intros. destruct c; [done|]. simpl. by rewrite lookup_delete_eq. Qed.

(** Writing a regular file where no directory was keeps every
    directory. *)
Lemma is_dir_insert_file fs c s m q :
  ¬ is_dir fs c → (is_dir (<[c := File s m]> fs) q ↔ is_dir fs q).
Proof.
  intros Hc. unfold is_dir. destruct (decide (c = q)) as [->|Hne].
  - destruct q; [done|]. simpl. rewrite lookup_insert_eq. split; [done|]. intros. by destruct Hc.
  - by rewrite lookup_node_insert_ne.
Qed.

Lemma is_dir_insert_dir fs c q : is_dir fs q → is_dir (<[c := Dir]> fs) q.
Proof.
  unfold is_dir. intros H. destruct (decide (c = q)) as [->|Hne].
  - destruct q; [done|]. simpl. by rewrite lookup_insert_eq.
  - by rewrite lookup_node_insert_ne.
Qed.

Lemma is_dir_delete_file fs c q :
  ¬ is_dir fs c → (is_dir (delete c fs) q ↔ is_dir fs q).
Proof.
  intros Hc. unfold is_dir. destruct (decide (c = q)) as [->|Hne].
  - destruct q; [done|]. simpl. rewrite lookup_delete_eq. split; [done|]. intros. by destruct Hc.
  - by rewrite lookup_node_delete_ne.
Qed.

(* ===================================================================== *)
(** ** The paths of a registration *)
(* ===================================================================== *)

Lemma append_cons a s t : String a s +:+ t = String a (s +:+ t).
Proof. done. Qed.

Lemma append_assoc (a b c : string) : (a +:+ b) +:+ c = a +:+ b +:+ c.
Proof. induction a as [|x a IH]; [done|]. by rewrite !append_cons, IH. Qed.

Lemma split_names i : split_on "/"%char i = parent_names i ++ [base_name i].
Proof. unfold parent_names, base_name. apply app_removelast_last, split_on_nonempty. Qed.

Lemma split_suffixed i suf :
  has_char "/"%char suf = false →
  split_on "/"%char (i +:+ suf) = parent_names i ++ [base_name i +:+ suf].
Proof.
  intros Hs. destruct (split_on_app_no_sep "/"%char i suf Hs) as (xs & x & Hi & ->).
  rewrite split_names in Hi. by apply app_inj_tail in Hi as [-> ->].
Qed.

Lemma names_no_slash i :
  has_char "/"%char i = false → parent_names i = [] ∧ base_name i = i.
Proof. intros H. unfold parent_names, base_name. by rewrite split_on_no_sep. Qed.

Lemma start_of_app e d r : d ≠ "" → start_of e (d +:+ r) = start_of e d.
Proof. by destruct d. Qed.

Lemma split_entry d i suf :
  has_char "/"%char suf = false →
  split_on "/"%char (d +:+ "/" +:+ i +:+ suf)
  = split_on "/"%char d ++ parent_names i ++ [base_name i +:+ suf].
Proof.
  intros Hs. change ("/" +:+ i +:+ suf) with (String "/"%char (i +:+ suf)).
  by rewrite split_on_app_sep, split_suffixed.
Qed.

Lemma canon_entry e d i suf :
  d ≠ "" → has_char "/"%char suf = false → 3 ≤ String.length suf →
  canon e (d +:+ "/" +:+ i +:+ suf) = (base_name i +:+ suf) :: holder e d i.
Proof.
  intros Hd Hs Hl. unfold canon, holder.
  rewrite start_of_app, split_entry by done.
  rewrite app_assoc, !canon_from_app. simpl.
  destruct (suffixed_name (base_name i) suf Hl) as (?&?&?).
  by rewrite step_name.
Qed.

Lemma has_nul_entry d i suf :
  has_nul suf = false →
  has_nul (d +:+ "/" +:+ i +:+ suf) = has_nul d || has_nul i.
Proof.
  unfold has_nul. intros Hs. rewrite !has_char_app, Hs. simpl.
  by rewrite orb_false_r.
Qed.

Lemma entry_nonempty d r : d +:+ "/" +:+ r ≠ "".
Proof. destruct d; done. Qed.

(** A path of a registration resolves exactly when the holding directory
    is reached, and then to the suffixed last name in it. *)
Lemma resolve_entry w d i suf c :
  d ≠ "" → has_char "/"%char suf = false → has_nul suf = false → 3 ≤ String.length suf →
  resolve w (d +:+ "/" +:+ i +:+ suf) = Ok c
  ↔ reaches w d i ∧ c = (base_name i +:+ suf) :: holder (w_env w) d i.
Proof.
  intros Hd Hs Hn Hl. unfold resolve, reaches.
  rewrite has_nul_entry by done.
  rewrite (decide_False (P := _ = "")) by apply entry_nonempty.
  rewrite start_of_app, split_entry by done. rewrite app_assoc.
  destruct (suffixed_name (base_name i) suf Hl) as (?&?&?).
  destruct (has_nul d), (has_nul i); simpl; try (split; [done|by intros [(?&?&?) ?]]).
  split.
  - intros Hr. apply walk_snoc in Hr as (Hw & Hdir & ->).
    unfold holder, canon. rewrite <- canon_from_app.
    rewrite step_name by done. done.
  - intros [(_ & _ & Hw & Hdir) ->]. rewrite walk_app, Hw. simpl.
    unfold is_dir in Hdir. rewrite Hdir. by rewrite step_name.
Qed.

(* ===================================================================== *)
(** ** The monad and the library calls *)
(* ===================================================================== *)

Lemma bind_run {A B} (m : M A) (k : A → M B) w :
  (m ≫= k) w = match m w with
               | (Ok a, w') => k a w'
               | (Raise e, w') => (Raise e, w')
               end.
Proof. done. Qed.

Lemma bind_ok {A B} (m : M A) (k : A → M B) w b w' :
  (m ≫= k) w = (Ok b, w') ↔ ∃ a w1, m w = (Ok a, w1) ∧ k a w1 = (Ok b, w').
Proof.
  rewrite bind_run. destruct (m w) as [[a|e] w1]; split.
  - intros H. by exists a, w1.
  - by intros (? & ? & [= <- <-] & ?).
  - done.
  - by intros (? & ? & ? & ?).
Qed.

Lemma set_fs_id w : set_fs w (w_fs w) = w.
Proof. by destruct w. Qed.

Lemma startup_folder_run s w : _startup_folder s w = (Ok (startup_dir (w_env w) s), w).
Proof. by destruct s. Qed.

Lemma startup_dir_user e :
  startup_dir e false = match home_of e with
                        | Some h => rstrip "/"%char h +:+ "/.config/autostart"
                        | None => "~/.config/autostart"
                        end.
Proof.
  unfold startup_dir, home_of. simpl. unfold expanduser. simpl.
  destruct (env_HOME e) as [h|]; [|destruct (pw_dir e) as [h|]]; try done;
    by destruct (rstrip "/"%char h).
Qed.

Lemma startup_dir_nonempty e s : startup_dir e s ≠ "".
Proof.
  destruct s; [done|]. rewrite startup_dir_user.
  destruct (home_of e) as [h|]; [|done]. by destruct (rstrip "/"%char h).
Qed.

Lemma exists_total p w : ∃ b, os_path_exists p w = (Ok b, w).
Proof.
  unfold os_path_exists. destruct (resolve w p) as [c|]; [|by eexists].
  destruct (lookup_node (w_fs w) c); by eexists.
Qed.

Lemma exists_true p w : os_path_exists p w = (Ok true, w) ↔ exists_at w p.
Proof.
  unfold os_path_exists, exists_at. destruct (resolve w p) as [c|].
  - destruct (lookup_node (w_fs w) c) as [n|] eqn:E; split; try done.
    + intros _. by exists c, n.
    + intros (? & ? & [= <-] & ?). congruence.
  - split; [done|]. by intros (? & ? & ? & ?).
Qed.

Lemma exists_false p w : os_path_exists p w = (Ok false, w) ↔ ¬ exists_at w p.
Proof.
  rewrite <- exists_true. by destruct (exists_total p w) as [[] ->].
Qed.

(** The paths of a registration, as [os.path.exists] sees them. *)
Lemma exists_entry w d i suf :
  d ≠ "" → has_char "/"%char suf = false → has_nul suf = false → 3 ≤ String.length suf →
  exists_at w (d +:+ "/" +:+ i +:+ suf)
  ↔ reaches w d i ∧ is_Some (w_fs w !! ((base_name i +:+ suf) :: holder (w_env w) d i)).
Proof.
  intros. unfold exists_at. split.
  - intros (c & n & Hr & Hn). apply resolve_entry in Hr as [? ->]; done.
  - intros [Hr [n Hn]]. exists ((base_name i +:+ suf) :: holder (w_env w) d i), n.
    split; [|exact Hn]. by apply resolve_entry.
Qed.

Lemma resolve_canon w p c : resolve w p = Ok c → c = canon (w_env w) p.
Proof.
  unfold resolve, canon. destruct (has_nul p); [done|]. case_decide; [done|].
  apply walk_canon.
Qed.

Lemma can_write_not_dir fs c : can_write fs c → ¬ is_dir fs c.
Proof. unfold can_write, is_dir. by intros H E; rewrite E in H. Qed.

(** [with open(path, 'w') as f: f.write(text)] as one step. *)
Lemma write_ok p text w w' :
  (open_w p ≫= λ f, f_write f text) w = (Ok (), w')
  ↔ ∃ c, resolve w p = Ok c ∧ can_write (w_fs w) c
         ∧ w' = set_fs w (<[c := File text (mode_after_open w c)]> (w_fs w)).
Proof.
  rewrite bind_run. unfold open_w, f_write, can_write, mode_after_open.
  destruct (resolve w p) as [c|e]; [|split; [done|by intros (?&?&?)]].
  destruct c as [|x c].
  { simpl. split; [done|]. by intros (? & [= <-] & [] & _). }
  rewrite lookup_node_cons.
  destruct (w_fs w !! (x :: c)) as [[|s m]|] eqn:E.
  - split; [done|]. intros (? & [= <-] & H & _). revert H. simpl. by rewrite E.
  - simpl. rewrite lookup_insert_eq, insert_insert_eq. split.
    + intros [= <-]. exists (x :: c). simpl. by rewrite E.
    + intros (? & [= <-] & _ & ->). by rewrite E.
  - destruct (lookup_node (w_fs w) (tail (x :: c))) as [[|]|] eqn:Ec.
    + simpl. rewrite lookup_insert_eq, insert_insert_eq. split.
      * intros [= <-]. exists (x :: c). simpl. by rewrite E.
      * intros (? & [= <-] & _ & ->). by rewrite E.
    + split; [done|]. intros (? & [= <-] & H & _). revert H. simpl. rewrite E.
      unfold is_dir. simpl in Ec. by rewrite Ec.
    + split; [done|]. intros (? & [= <-] & H & _). revert H. simpl. rewrite E.
      unfold is_dir. simpl in Ec. by rewrite Ec.
Qed.

(** Whatever its outcome, writing a file changes nothing but the node the
    path leads to. *)
Lemma write_frame p text w r w' :
  (open_w p ≫= λ f, f_write f text) w = (r, w') →
  w_env w' = w_env w
  ∧ ∀ q, q ≠ canon (w_env w) p → w_fs w' !! q = w_fs w !! q.
Proof.
  rewrite bind_run. unfold open_w, f_write.
  destruct (resolve w p) as [c|e] eqn:Hr; [|by intros [= <- <-]].
  apply resolve_canon in Hr as ->. set (c := canon (w_env w) p).
  destruct (lookup_node (w_fs w) c) as [[|s m]|]; [by intros [= <- <-]| |].
  - simpl. rewrite lookup_insert_eq. intros [= <- <-]. split; [done|].
    intros q Hq. simpl. by rewrite !lookup_insert_ne.
  - destruct (lookup_node (w_fs w) (tail c)) as [[|]|]; try by intros [= <- <-].
    simpl. rewrite lookup_insert_eq. intros [= <- <-]. split; [done|].
    intros q Hq. simpl. by rewrite !lookup_insert_ne.
Qed.

Lemma chmod_ok p mode w w' :
  os_chmod p mode w = (Ok (), w')
  → ∃ c, resolve w p = Ok c
         ∧ ((∃ s m, lookup_node (w_fs w) c = Some (File s m)
                    ∧ w' = set_fs w (<[c := File s mode]> (w_fs w)))
            ∨ (is_dir (w_fs w) c ∧ w' = w)).
Proof.
  unfold os_chmod. destruct (resolve w p) as [c|e]; [|done].
  destruct (lookup_node (w_fs w) c) as [[|s m]|] eqn:E; [| |done].
  - intros [= <-]. exists c. split; [done|]. by right.
  - intros [= <-]. exists c. split; [done|]. left. by exists s, m.
Qed.

Lemma chmod_file p mode w c s m :
  resolve w p = Ok c → lookup_node (w_fs w) c = Some (File s m) →
  os_chmod p mode w = (Ok (), set_fs w (<[c := File s mode]> (w_fs w))).
Proof. unfold os_chmod. by intros -> ->. Qed.

Lemma chmod_frame p mode w r w' :
  os_chmod p mode w = (r, w') →
  w_env w' = w_env w
  ∧ ∀ q, q ≠ canon (w_env w) p → w_fs w' !! q = w_fs w !! q.
Proof.
  unfold os_chmod. destruct (resolve w p) as [c|e] eqn:Hr; [|by intros [= <- <-]].
  apply resolve_canon in Hr as ->.
  destruct (lookup_node (w_fs w) _) as [[|s m]|]; try by intros [= <- <-].
  intros [= <- <-]. split; [done|]. intros q Hq. simpl. by rewrite lookup_insert_ne.
Qed.

Lemma remove_ok p w w' :
  os_remove p w = (Ok (), w')
  ↔ ∃ c s m, resolve w p = Ok c ∧ lookup_node (w_fs w) c = Some (File s m)
             ∧ w' = set_fs w (delete c (w_fs w)).
Proof.
  unfold os_remove. destruct (resolve w p) as [c|e]; [|split; [done|by intros (?&?&?&?&?)]].
  destruct (lookup_node (w_fs w) c) as [[|s m]|] eqn:E; split; try done.
  - intros (? & ? & ? & [= <-] & ? & ?). congruence.
  - intros [= <-]. by exists c, s, m.
  - intros (? & ? & ? & [= <-] & ? & ->). done.
  - intros (? & ? & ? & [= <-] & ? & ?). congruence.
Qed.

(* ===================================================================== *)
(** ** [os.makedirs] *)
(* ===================================================================== *)

Lemma mkdir_at_ok fs cur fs' :
  mkdir_at fs cur = Ok fs' → fs' = <[cur := Dir]> fs.
Proof. unfold mkdir_at. destruct (lookup_node fs (tail cur)) as [[|]|]; by intros [= <-]. Qed.

(** Whatever its outcome, [mkdirs] only creates directories, and only
    where the walk passes and nothing was. *)
Lemma mkdirs_frame fs cur comps r fs' q :
  mkdirs fs cur comps = (r, fs') →
  fs' !! q = fs !! q
  ∨ (q ∈ visited_from cur comps ∧ fs !! q = None ∧ fs' !! q = Some Dir).
Proof.
  revert fs cur. induction comps as [|x comps IH]; simpl; intros fs cur H.
  - destruct (lookup_node fs cur) as [[|]|] eqn:E; try (injection H as <- <-; by left).
    destruct (mkdir_at fs cur) as [fs1|] eqn:E1; injection H as <- <-; [|by left].
    apply mkdir_at_ok in E1 as ->. destruct (decide (cur = q)) as [->|Hne].
    + right. destruct q; [done|]. rewrite lookup_insert_eq. split; [set_solver|done].
    + left. by rewrite lookup_insert_ne.
  - destruct (lookup_node fs cur) as [[|]|] eqn:E.
    + destruct (IH _ _ H) as [?|(?&?&?)]; [by left|right]. split; [set_solver|done].
    + injection H as <- <-. by left.
    + destruct (mkdir_at fs cur) as [fs1|] eqn:E1; [|injection H as <- <-; by left].
      apply mkdir_at_ok in E1 as ->.
      destruct (decide (cur = q)) as [->|Hne].
      * right. destruct q; [done|]. simpl in E. split; [set_solver|]. split; [done|].
        destruct (IH _ _ H) as [->|(_&Hn&_)]; [by rewrite lookup_insert_eq|].
        by rewrite lookup_insert_eq in Hn.
      * destruct (IH _ _ H) as [->|(?&Hn&?)].
        -- left. by rewrite lookup_insert_ne.
        -- right. rewrite lookup_insert_ne in Hn by done. split; [set_solver|done].
Qed.

Lemma mkdirs_keeps_dirs fs cur comps r fs' q :
  mkdirs fs cur comps = (r, fs') → is_dir fs q → is_dir fs' q.
Proof.
  intros H. unfold is_dir. destruct q as [|x q]; [done|]. simpl.
  destruct (mkdirs_frame _ _ _ _ _ (x :: q) H) as [->|(_&->&_)]; done.
Qed.

(** After [mkdirs] the whole path can be walked and ends in a
    directory. *)
Lemma mkdirs_ok fs cur comps fs' :
  mkdirs fs cur comps = (Ok (), fs') →
  walk fs' cur comps = Ok (canon_from cur comps) ∧ is_dir fs' (canon_from cur comps).
Proof.
  revert fs cur. induction comps as [|x comps IH]; simpl; intros fs cur H.
  - split; [done|]. unfold is_dir.
    destruct (lookup_node fs cur) as [[|]|] eqn:E; try done.
    + by injection H as <-.
    + destruct (mkdir_at fs cur) as [fs1|] eqn:E1; [|done]. injection H as <-.
      apply mkdir_at_ok in E1 as ->. destruct cur; [done|]. simpl. by rewrite lookup_insert_eq.
  - assert (is_dir fs' cur) as Hcur.
    { destruct (lookup_node fs cur) as [[|]|] eqn:E; try done.
      - by eapply mkdirs_keeps_dirs.
      - destruct (mkdir_at fs cur) as [fs1|] eqn:E1; [|done].
        apply mkdir_at_ok in E1 as ->. eapply mkdirs_keeps_dirs; [done|].
        unfold is_dir. destruct cur; [done|]. simpl. by rewrite lookup_insert_eq. }
    unfold is_dir in Hcur. rewrite Hcur. unfold canon_from. simpl.
    destruct (lookup_node fs cur) as [[|]|]; try done.
    + by eapply IH.
    + destruct (mkdir_at fs cur) as [fs1|]; [|done]. by eapply IH.
Qed.

(** On a path that is there already, [mkdirs] does nothing. *)
Lemma mkdirs_noop fs cur comps c :
  walk fs cur comps = Ok c → is_dir fs c → mkdirs fs cur comps = (Ok (), fs).
Proof.
  revert cur. induction comps as [|x comps IH]; simpl; intros cur H Hc.
  - injection H as ->. unfold is_dir in Hc. by rewrite Hc.
  - destruct (lookup_node fs cur) as [[|]|]; try done. by apply IH.
Qed.

Lemma makedirs_ok name w w' :
  os_makedirs name w = (Ok (), w') →
  has_nul name = false ∧ name ≠ "" ∧ w_env w' = w_env w
  ∧ walk (w_fs w') (start_of (w_env w) name) (split_on "/"%char name)
    = Ok (canon (w_env w) name)
  ∧ is_dir (w_fs w') (canon (w_env w) name)
  ∧ (∀ q, is_dir (w_fs w) q → is_dir (w_fs w') q).
Proof.
  unfold os_makedirs. destruct (has_nul name); [done|]. case_decide; [done|].
  destruct (mkdirs _ _ _) as [r fs'] eqn:E. intros [= -> <-]. simpl.
  repeat split; try done; try by apply (mkdirs_ok _ _ _ _ E).
  intros q. by eapply mkdirs_keeps_dirs.
Qed.

Lemma makedirs_frame name w r w' q :
  os_makedirs name w = (r, w') →
  w_env w' = w_env w
  ∧ (w_fs w' !! q = w_fs w !! q
     ∨ (q ∈ visited (w_env w) name ∧ w_fs w !! q = None ∧ w_fs w' !! q = Some Dir)).
Proof.
  unfold os_makedirs. destruct (has_nul name); [intros [= <- <-]; by split; [|left]|].
  case_decide; [intros [= <- <-]; by split; [|left]|].
  destruct (mkdirs _ _ _) as [r1 fs'] eqn:E. intros [= <- <-]. simpl.
  split; [done|]. by eapply mkdirs_frame.
Qed.

Lemma makedirs_noop name w :
  has_nul name = false → name ≠ "" →
  walk (w_fs w) (start_of (w_env w) name) (split_on "/"%char name)
  = Ok (canon (w_env w) name) →
  is_dir (w_fs w) (canon (w_env w) name) →
  os_makedirs name w = (Ok (), w).
Proof.
  intros Hn Hne Hw Hd. unfold os_makedirs. rewrite Hn, decide_False by done.
  rewrite (mkdirs_noop _ _ _ _ Hw Hd). by rewrite set_fs_id.
Qed.

(* ===================================================================== *)
(** ** What [add] does *)
(* ===================================================================== *)

Lemma reaches_same_dirs w w' d i :
  w_env w' = w_env w → (∀ q, is_dir (w_fs w) q ↔ is_dir (w_fs w') q) →
  reaches w d i ↔ reaches w' d i.
Proof.
  intros He Hd. unfold reaches. rewrite He.
  split; intros (?&?&Hw&Hh); repeat split; try done;
    try (by apply Hd); (eapply walk_mono; [|exact Hw]); intros q; apply Hd.
Qed.

Lemma can_write_insert_file fs c s m c' :
  ¬ is_dir fs c → c ≠ c' →
  can_write (<[c := File s m]> fs) c' ↔ can_write fs c'.
Proof.
  intros Hc Hne. unfold can_write. rewrite lookup_node_insert_ne by done.
  destruct (lookup_node fs c') as [[|]|]; try done. by apply is_dir_insert_file.
Qed.

Lemma mode_after_open_eq w1 w2 c :
  w_env w1 = w_env w2 → w_fs w1 !! c = w_fs w2 !! c →
  mode_after_open w1 c = mode_after_open w2 c.
Proof. unfold mode_after_open. by intros -> ->. Qed.

Lemma world_eq w1 w2 : w_env w1 = w_env w2 → w_fs w1 = w_fs w2 → w1 = w2.
Proof. destruct w1, w2. simpl. by intros -> ->. Qed.

Ltac side := first [done | simpl; lia].

Lemma launcher_ne_descriptor x (h : list string) :
  (x +:+ ".sh") :: h ≠ (x +:+ ".desktop") :: h.
Proof. intros [= E]. by apply append_inj_l in E. Qed.

Section add_spec.
Variables (identifier script_location interpreter arguments : string).
Variable system_wide : bool.
Variable w : world.

Local Abbreviation d := (startup_dir (w_env w) system_wide).
Local Abbreviation H := (holder (w_env w) d identifier).
Local Abbreviation L := ((base_name identifier +:+ ".sh") :: H).
Local Abbreviation D := ((base_name identifier +:+ ".desktop") :: H).
Local Abbreviation ltext := (launcher_text interpreter script_location arguments).
Local Abbreviation dtext := (descriptor_text identifier (d +:+ "/" +:+ identifier)).

(** [add] succeeds exactly when the startup directory can be made, the
    directory holding the two files is reached and both files can be
    written; the tree is then the one [os.makedirs] leaves, with the
    launcher and the descriptor put in. *)
Lemma add_ok w' :
  add identifier script_location interpreter system_wide arguments w = (Ok (), w')
  ↔ ∃ wM, os_makedirs d w = (Ok (), wM) ∧ reaches wM d identifier
          ∧ can_write (w_fs wM) L ∧ can_write (w_fs wM) D
          ∧ w' = set_fs w (<[D := File dtext (mode_after_open wM D)]>
                           (<[L := File ltext (octal [7; 5; 5])]> (w_fs wM))).
Proof.
  unfold add. rewrite bind_run, startup_folder_run.
  rewrite !append_assoc. rewrite bind_ok.
  pose proof (startup_dir_nonempty (w_env w) system_wide) as Hd.
  pose proof (launcher_ne_descriptor (base_name identifier) H) as Hne.
  split.
  - intros ([] & wM & HM & Hrest). exists wM. split; [done|].
    apply makedirs_ok in HM as HM'. destruct HM' as (_ & _ & He & _).
    apply bind_ok in Hrest as ([] & w2 & Hsh & Hrest).
    apply write_ok in Hsh as (c & Hr & Hcw & ->).
    apply resolve_entry in Hr as [Hreach ->]; try side. rewrite He in Hcw.
    split; [done|]. split; [done|].
    apply bind_ok in Hrest as ([] & w3 & Hch & Hrest).
    apply chmod_ok in Hch as (c & Hr & Hch).
    apply resolve_entry in Hr as [_ ->]; try side. simpl in Hch. rewrite He in Hch.
    destruct Hch as [(s & m & Hl & ->)|[Hdir _]]; cycle 1.
    { unfold is_dir in Hdir. simpl in Hdir. by rewrite lookup_insert_eq in Hdir. }
    simpl in Hl. rewrite lookup_insert_eq in Hl. injection Hl as <- <-.
    rewrite insert_insert_eq in Hrest.
    apply write_ok in Hrest as (c & Hr & Hcw2 & ->).
    apply resolve_entry in Hr as [_ ->]; try side. simpl in *. rewrite He in *.
    apply can_write_insert_file in Hcw2; [|by apply can_write_not_dir|done].
    split; [done|]. apply world_eq; simpl; [done|]. do 2 f_equal.
    apply mode_after_open_eq; simpl; [done|]. by rewrite lookup_insert_ne.
  - intros (wM & HM & Hreach & HcL & HcD & ->). exists (), wM. split; [done|].
    apply makedirs_ok in HM as HM'. destruct HM' as (_ & _ & He & _).
    set (w2 := set_fs wM (<[L := File ltext (mode_after_open wM L)]> (w_fs wM))).
    assert ((open_w (d +:+ "/" +:+ identifier +:+ ".sh") ≫= λ f, f_write f ltext) wM
            = (Ok (), w2)) as Hsh.
    { apply write_ok. exists L. split; [|done]. apply resolve_entry; try side.
      by rewrite He. }
    apply bind_ok. exists (), w2. split; [done|].
    set (w3 := set_fs wM (<[L := File ltext (octal [7; 5; 5])]> (w_fs wM))).
    assert (∀ q, is_dir (w_fs wM) q ↔ is_dir (w_fs w3) q) as Hdirs.
    { intros q. symmetry. apply is_dir_insert_file. by apply can_write_not_dir. }
    assert (os_chmod (d +:+ "/" +:+ identifier +:+ ".sh") (octal [7; 5; 5]) w2
            = (Ok (), w3)) as Hch.
    { erewrite (chmod_file _ _ _ L ltext).
      - unfold w2, w3, set_fs. simpl. by rewrite insert_insert_eq.
      - apply resolve_entry; try side. split; [|by simpl; rewrite He].
        eapply reaches_same_dirs; [| |exact Hreach]; [done|].
        intros q. apply is_dir_insert_file. by apply can_write_not_dir.
      - simpl. by rewrite lookup_insert_eq. }
    apply bind_ok. exists (), w3. split; [done|].
    apply write_ok. exists D. split; [|split].
    + apply resolve_entry; try side. split; [|by simpl; rewrite He].
      by eapply reaches_same_dirs; [| |exact Hreach].
    + simpl. apply can_write_insert_file; [by apply can_write_not_dir|done|done].
    + apply world_eq; simpl; [done|]. do 2 f_equal.
      apply mode_after_open_eq; simpl; [done|]. by rewrite lookup_insert_ne.
Qed.
End add_spec.

(* ===================================================================== *)
(** ** [check] *)
(* ===================================================================== *)

Lemma check_run i s w :
  check i s w
  = match os_path_exists (startup_dir (w_env w) s +:+ "/" +:+ i +:+ ".desktop") w with
    | (Ok true, w') => (Ok true, w')
    | (Ok false, w') => (Ok false, w')
    | (Raise e, w') => (Raise e, w')
    end.
Proof.
  unfold check. rewrite bind_run, startup_folder_run, bind_run.
  by destruct (os_path_exists _ w) as [[[]|] ?].
Qed.

Lemma check_true i s w :
  check i s w = (Ok true, w)
  ↔ exists_at w (startup_dir (w_env w) s +:+ "/" +:+ i +:+ ".desktop").
Proof.
  rewrite check_run, <- exists_true.
  by destruct (exists_total (startup_dir (w_env w) s +:+ "/" +:+ i +:+ ".desktop") w)
    as [[] ->].
Qed.

Lemma check_false i s w :
  check i s w = (Ok false, w)
  ↔ ¬ exists_at w (startup_dir (w_env w) s +:+ "/" +:+ i +:+ ".desktop").
Proof.
  rewrite check_run, <- exists_false.
  by destruct (exists_total (startup_dir (w_env w) s +:+ "/" +:+ i +:+ ".desktop") w)
    as [[] ->].
Qed.

(** A path below a directory that does not exist does not exist. *)
Lemma missing_dir_no_entry w d r :
  d ≠ "" → ¬ exists_at w d → ¬ exists_at w (d +:+ "/" +:+ r).
Proof.
  intros Hd Hno (c & n & Hr & Hn). apply Hno. revert Hr. unfold exists_at, resolve.
  change ("/" +:+ r) with (String "/"%char r).
  unfold has_nul. rewrite has_char_app.
  destruct (has_char "000"%char d) eqn:En; [done|]. simpl.
  rewrite (decide_False (P := d = "")) by done.
  destruct (has_char "000"%char r); [done|].
  rewrite (decide_False (P := _ = "")) by (by destruct d).
  rewrite start_of_app, split_on_app_sep, walk_app by done.
  destruct (walk (w_fs w) (start_of (w_env w) d) (split_on "/"%char d)) as [c0|] eqn:Ew; [|done].
  pose proof (split_on_nonempty "/"%char r).
  destruct (split_on "/"%char r) as [|x xs]; [done|]. simpl.
  destruct (lookup_node (w_fs w) c0) as [n0|] eqn:E0; [|done].
  intros _. by exists c0, n0.
Qed.

Lemma check_total i s w : ∃ b : bool, check i s w = (Ok b, w).
Proof.
  rewrite check_run.
  destruct (exists_total (startup_dir (w_env w) s +:+ "/" +:+ i +:+ ".desktop") w)
    as [[] ->]; by eexists.
Qed.

(** C10: [check] is total and read-only.  For every identifier string,
    the empty one and those with path separators or NUL bytes included,
    and for every scope flag, in every state of the machine, [check] raises
    no exception, returns a boolean and leaves the environment and the
    directory tree as they were.  The identifier is not validated. *)
Theorem check_total_read_only (identifier : string) (system_wide : bool) (w : world) :
  ∃ b : bool, check identifier system_wide w = (Ok b, w).
Proof. apply check_total. Qed.

(** C9: scope resolution is pure.  For each value of the flag the
    resolver returns a path that depends on the process environment
    only, not on the directory tree; it leaves the machine as it was; and
    two calls in a row return the same path twice. *)
Theorem startup_folder_pure (system_wide : bool) (w : world) :
  ∃ d : string,
    _startup_folder system_wide w = (Ok d, w)
    ∧ (d1 ← _startup_folder system_wide;
       d2 ← _startup_folder system_wide;
       mret (d1, d2)) w = (Ok (d, d), w)
    ∧ ∀ fs', _startup_folder system_wide (set_fs w fs') = (Ok d, set_fs w fs').
Proof.
  exists (startup_dir (w_env w) system_wide). split; [apply startup_folder_run|]. split.
  - by rewrite bind_run, startup_folder_run, bind_run, startup_folder_run.
  - intros fs'. by rewrite startup_folder_run.
Qed.

(** C1: [check] answers whether the descriptor exists.  For every
    identifier and scope flag, [check] returns [True] exactly when
    [os.path.exists] holds of <startup directory>/<identifier>.desktop and
    [False] exactly when it does not; it returns [False] when the startup
    directory itself does not exist; the answer is the same whether or not
    a regular file <identifier>.sh is there; and it is [False] when no node
    was ever put where the descriptor path leads, as on a machine with an
    empty tree. *)
Theorem check_iff_descriptor_exists (identifier : string) (system_wide : bool) (w : world) :
  let d := startup_dir (w_env w) system_wide in
  let desktop := d +:+ "/" +:+ identifier +:+ ".desktop" in
  let launcher := canon (w_env w) (d +:+ "/" +:+ identifier +:+ ".sh") in
  (check identifier system_wide w = (Ok true, w) ↔ exists_at w desktop)
  ∧ (check identifier system_wide w = (Ok false, w) ↔ ¬ exists_at w desktop)
  ∧ (¬ exists_at w d → check identifier system_wide w = (Ok false, w))
  ∧ (∀ fs' : filesys,
       (∀ q, q ≠ launcher → fs' !! q = w_fs w !! q) →
       ¬ is_dir (w_fs w) launcher → ¬ is_dir fs' launcher →
       (check identifier system_wide (set_fs w fs')).1 = (check identifier system_wide w).1)
  ∧ (w_fs w !! canon (w_env w) desktop = None →
     check identifier system_wide w = (Ok false, w))
  ∧ check identifier system_wide (set_fs w ∅) = (Ok false, set_fs w ∅).
Proof.
  intros d desktop launcher.
  pose proof (startup_dir_nonempty (w_env w) system_wide) as Hd.
  assert (∀ w1 : world, w_env w1 = w_env w →
            w_fs w1 !! canon (w_env w) desktop = None →
            check identifier system_wide w1 = (Ok false, w1)) as Hnone.
  { intros w1 He Hn. apply check_false. rewrite He. fold d.
    intros [_ [n Hs]]%exists_entry; try side. rewrite He in Hs.
    unfold desktop in Hn. rewrite canon_entry in Hn by side. congruence. }
  split; [apply check_true|]. split; [apply check_false|]. split; [|split; [|split]].
  - intros Hno. apply check_false. by apply missing_dir_no_entry.
  - intros fs' Hsame HL HL'.
    unfold launcher in *. rewrite canon_entry in * by side.
    set (L := (base_name identifier +:+ ".sh") :: holder (w_env w) d identifier) in *.
    assert (∀ q, is_dir (w_fs w) q ↔ is_dir fs' q) as Hdirs.
    { intros q. destruct (decide (q = L)) as [->|Hq]; [done|].
      unfold is_dir. destruct q; [done|]. simpl. by rewrite Hsame. }
    assert (check identifier system_wide (set_fs w fs') = (Ok true, set_fs w fs')
            ↔ check identifier system_wide w = (Ok true, w)) as Hiff.
    { rewrite !check_true. simpl. fold d. rewrite !exists_entry by side. simpl.
      rewrite (reaches_same_dirs w (set_fs w fs')) by done.
      rewrite Hsame; [done|]. apply not_eq_sym, launcher_ne_descriptor. }
    destruct (check_total identifier system_wide w) as [b Hb].
    destruct (check_total identifier system_wide (set_fs w fs')) as [b' Hb'].
    rewrite Hb, Hb'. simpl. f_equal.
    destruct b, b'; try done.
    + apply Hiff in Hb. congruence.
    + apply Hiff in Hb'. congruence.
  - by apply Hnone.
  - apply Hnone; [done|]. simpl. apply lookup_empty.
Qed.

(* ===================================================================== *)
(** ** [remove] *)
(* ===================================================================== *)

Lemma remove_env p w r w' : os_remove p w = (r, w') → w_env w' = w_env w.
Proof.
  unfold os_remove. destruct (resolve w p) as [c|]; [|by intros [= <- <-]].
  destruct (lookup_node (w_fs w) c) as [[|]|]; by intros [= <- <-].
Qed.

(** What [os.remove] removed is gone. *)
Lemma remove_gone p w w' : os_remove p w = (Ok (), w') → ¬ exists_at w' p.
Proof.
  intros (c & s & m & Hr & Hl & ->)%remove_ok (c' & n & Hr' & Hn).
  apply resolve_canon in Hr as ->. apply resolve_canon in Hr' as ->. simpl in *.
  rewrite lookup_node_delete_eq in Hn; [done|]. intros E. by rewrite E in Hl.
Qed.

(** The two deletions of [remove], one after the other. *)
Lemma remove_run i s w :
  remove i s w
  = (let d := startup_dir (w_env w) s in
     remove_list [d +:+ "/" +:+ i +:+ ".sh"; d +:+ "/" +:+ i +:+ ".desktop"] w).
Proof. unfold remove. by rewrite bind_run, startup_folder_run, bind_run, startup_folder_run. Qed.

Lemma remove_list_cons p rest w b w' :
  remove_list (p :: rest) w = (Ok b, w')
  ↔ ∃ w1, ((os_path_exists p w = (Ok true, w) ∧ os_remove p w = (Ok (), w1))
           ∨ (os_path_exists p w = (Ok false, w) ∧ w1 = w))
          ∧ remove_list rest w1 = (Ok b, w').
Proof.
  simpl. rewrite bind_ok. split.
  - intros (present & w0 & He & Hrest). apply bind_ok in Hrest as ([] & w1 & Hrm & Hrest).
    destruct (exists_total p w) as [present' He']. rewrite He' in He.
    injection He as -> <-. exists w1. split; [|done].
    destruct present; [left|right]; [done|]. by injection Hrm as <-.
  - intros (w1 & [[He Hrm]|[He ->]] & Hrest).
    + exists true, w. split; [done|]. apply bind_ok. by exists (), w1.
    + exists false, w. split; [done|]. apply bind_ok. by exists (), w.
Qed.

(** C6: [remove] of an identifier that was never registered.  When
    [os.path.exists] holds of neither <identifier>.sh nor
    <identifier>.desktop in the startup directory, [remove] raises nothing,
    returns [True] and leaves the machine as it was: a missing file is
    nothing to remove. *)
Theorem remove_unregistered (identifier : string) (system_wide : bool) (w : world) :
  let d := startup_dir (w_env w) system_wide in
  os_path_exists (d +:+ "/" +:+ identifier +:+ ".sh") w = (Ok false, w) →
  os_path_exists (d +:+ "/" +:+ identifier +:+ ".desktop") w = (Ok false, w) →
  remove identifier system_wide w = (Ok true, w).
Proof.
  intros d Hsh Hdesk. rewrite remove_run. fold d.
  apply remove_list_cons. exists w. split; [by right|].
  apply remove_list_cons. exists w. split; [by right|]. done.
Qed.

Lemma remove_unregistered_witness :
  remove "build" false w0 = (Ok true, w0).
Proof. apply (remove_unregistered "build" false w0); by_eval. Defined.

(** C3: after [remove], [check] is [False].  For every identifier that is
    registered in the scope ([check] returns [True]), when [remove] of it
    returns without raising, [check] of the same identifier and scope on
    the machine [remove] leaves returns [False]. *)
Theorem remove_then_check (identifier : string) (system_wide : bool)
    (w w' : world) (r : bool) :
  check identifier system_wide w = (Ok true, w) →
  remove identifier system_wide w = (Ok r, w') →
  check identifier system_wide w' = (Ok false, w').
Proof.
  intros _. rewrite remove_run. cbv zeta.
  intros (w1 & H1 & (w2 & H2 & [= _ <-])%remove_list_cons)%remove_list_cons.
  assert (w_env w1 = w_env w) as He1.
  { destruct H1 as [[_ H1]|[_ ->]]; [by eapply remove_env|done]. }
  assert (w_env w2 = w_env w) as He2.
  { destruct H2 as [[_ H2]|[_ ->]]; [|done]. apply remove_env in H2. congruence. }
  apply check_false. rewrite He2.
  destruct H2 as [[_ H2]|[H2 ->]].
  - by eapply remove_gone.
  - by apply exists_false.
Qed.

(* ===================================================================== *)
(** ** After [add] *)
(* ===================================================================== *)

Lemma prefix_app sub post : starts_with sub (sub +:+ post) = true.
Proof.
  induction sub as [|a sub IH]; [done|].
  rewrite append_cons. simpl. by rewrite bool_decide_eq_true_2, IH.
Qed.

Lemma infix_str_app pre sub post : infix_str sub (pre +:+ sub +:+ post) = true.
Proof.
  induction pre as [|a pre IH].
  - change ("" +:+ sub +:+ post) with (sub +:+ post).
    destruct (sub +:+ post) eqn:E; simpl; rewrite <- E, prefix_app; done.
  - rewrite append_cons. simpl. rewrite IH. apply orb_true_r.
Qed.

(** The machine a successful [add] leaves: the environment is the same,
    the startup directory exists, the directory holding the two files is
    reached, and the launcher and the descriptor are regular files with the
    texts of this call, the launcher with mode 0755. *)
Lemma add_post i p n s a w w' :
  add i p n s a w = (Ok (), w') →
  w_env w' = w_env w
  ∧ has_nul (startup_dir (w_env w) s) = false
  ∧ walk (w_fs w') (start_of (w_env w) (startup_dir (w_env w) s))
         (split_on "/"%char (startup_dir (w_env w) s))
    = Ok (canon (w_env w) (startup_dir (w_env w) s))
  ∧ is_dir (w_fs w') (canon (w_env w) (startup_dir (w_env w) s))
  ∧ reaches w' (startup_dir (w_env w) s) i
  ∧ w_fs w' !! ((base_name i +:+ ".sh") :: holder (w_env w) (startup_dir (w_env w) s) i)
    = Some (File (launcher_text n p a) (octal [7; 5; 5]))
  ∧ ∃ m, w_fs w' !! ((base_name i +:+ ".desktop")
                      :: holder (w_env w) (startup_dir (w_env w) s) i)
         = Some (File (descriptor_text i (startup_dir (w_env w) s +:+ "/" +:+ i)) m).
Proof.
  intros (wM & HM & Hreach & HcL & HcD & ->)%add_ok.
  apply makedirs_ok in HM as (Hnul & _ & He & Hwalk & Hdir & _).
  pose proof (launcher_ne_descriptor (base_name i)
                (holder (w_env w) (startup_dir (w_env w) s) i)) as Hne.
  assert (∀ q, is_dir (w_fs wM) q ↔
               is_dir (w_fs (set_fs w
                 (<[(base_name i +:+ ".desktop")
                    :: holder (w_env w) (startup_dir (w_env w) s) i :=
                      File (descriptor_text i (startup_dir (w_env w) s +:+ "/" +:+ i))
                        (mode_after_open wM
                           ((base_name i +:+ ".desktop")
                            :: holder (w_env w) (startup_dir (w_env w) s) i))]>
                  (<[(base_name i +:+ ".sh")
                     :: holder (w_env w) (startup_dir (w_env w) s) i :=
                       File (launcher_text n p a) (octal [7; 5; 5])]> (w_fs wM))))) q)
    as Hdirs.
  { intros q. simpl. rewrite is_dir_insert_file, is_dir_insert_file; [done| |].
    - by apply can_write_not_dir.
    - rewrite is_dir_insert_file; by apply can_write_not_dir. }
  split; [done|]. split; [done|]. split; [|split; [|split; [|split]]].
  - eapply walk_mono; [|exact Hwalk]. intros q. apply Hdirs.
  - by apply Hdirs.
  - by eapply reaches_same_dirs; [| |exact Hreach].
  - simpl. rewrite lookup_insert_ne by done. by rewrite lookup_insert_eq.
  - eexists. simpl. by rewrite lookup_insert_eq.
Qed.

(** C2: after [add], [check] is [True].  For every identifier, script
    path, interpreter, scope flag and arguments, on every machine on which
    [add] returns without raising, [check] of the same identifier and scope
    returns [True] on the machine [add] leaves. *)
Theorem add_then_check (identifier script_location interpreter : string)
    (system_wide : bool) (arguments : string) (w w' : world) :
  add identifier script_location interpreter system_wide arguments w = (Ok (), w') →
  check identifier system_wide w' = (Ok true, w').
Proof.
  intros (He & _ & _ & _ & Hreach & _ & [m Hm])%add_post.
  apply check_true. rewrite He.
  apply exists_entry; [apply startup_dir_nonempty|side..|].
  split; [done|]. rewrite He. by eexists.
Qed.

Lemma add_then_check_witness :
  check "build" false (add "build" "/opt/build.sh" "python3" false "-v" w0).2
  = (Ok true, (add "build" "/opt/build.sh" "python3" false "-v" w0).2).
Proof.
  apply (add_then_check "build" "/opt/build.sh" "python3" false "-v" w0). by_eval.
Defined.

(** C4: the launcher file.  On every machine on which [add] returns
    without raising, the node the path <startup directory>/<identifier>.sh
    leads to is afterwards a regular file whose text is exactly
    [#!/bin/bash], an empty line, then interpreter, script location and
    arguments separated by single spaces, and a final newline, and whose
    permission bits are 0755. *)
Theorem add_writes_launcher (identifier script_location interpreter : string)
    (system_wide : bool) (arguments : string) (w w' : world) :
  add identifier script_location interpreter system_wide arguments w = (Ok (), w') →
  w_fs w' !! canon (w_env w)
              (startup_dir (w_env w) system_wide +:+ "/" +:+ identifier +:+ ".sh")
  = Some (File ("#!/bin/bash" +:+ nl +:+ nl +:+ interpreter +:+ " " +:+ script_location
                +:+ " " +:+ arguments +:+ nl)
               (octal [7; 5; 5])).
Proof.
  intros (_ & _ & _ & _ & _ & HL & _)%add_post.
  rewrite canon_entry; [exact HL|apply startup_dir_nonempty|side..].
Qed.

Lemma add_writes_launcher_witness :
  w_fs (add "build" "/opt/build.sh" "python3" false "-v" w0).2
    !! ["build.sh"; "autostart"; ".config"; "u"; "home"]
  = Some (File ("#!/bin/bash" +:+ nl +:+ nl +:+ "python3 /opt/build.sh -v" +:+ nl) 493).
Proof.
  apply (add_writes_launcher "build" "/opt/build.sh" "python3" false "-v" w0). by_eval.
Defined.

(** C5: the descriptor file.  On every machine on which [add] returns
    without raising, the node the path
    <startup directory>/<identifier>.desktop leads to is afterwards a
    regular file whose text is exactly the four lines [[Desktop Entry]],
    [Type=Application], [Name=<identifier>] and [Exec=<launcher path>],
    where the launcher path is the string
    <startup directory>/<identifier>.sh that the launcher was opened with;
    so the text contains [Name=<identifier>] and [Exec=<launcher path>], and
    for the per-user scope with home directory [h] the launcher path is
    <h without trailing slashes>/.config/autostart/<identifier>.sh. *)
Theorem add_writes_descriptor (identifier script_location interpreter : string)
    (system_wide : bool) (arguments : string) (w w' : world) :
  add identifier script_location interpreter system_wide arguments w = (Ok (), w') →
  let d := startup_dir (w_env w) system_wide in
  let launcher_path := d +:+ "/" +:+ identifier +:+ ".sh" in
  ∃ (text : string) (mode : Z),
    w_fs w' !! canon (w_env w) (d +:+ "/" +:+ identifier +:+ ".desktop")
    = Some (File text mode)
    ∧ text = "[Desktop Entry]" +:+ nl +:+ "Type=Application" +:+ nl +:+
             "Name=" +:+ identifier +:+ nl +:+ "Exec=" +:+ launcher_path +:+ nl
    ∧ infix_str ("Name=" +:+ identifier) text = true
    ∧ infix_str ("Exec=" +:+ launcher_path) text = true
    ∧ (system_wide = true → launcher_path = "/etc/init.d/" +:+ identifier +:+ ".sh")
    ∧ (∀ h, system_wide = false → home_of (w_env w) = Some h →
            launcher_path
            = (rstrip "/"%char h +:+ "/.config") +:+ "/autostart/" +:+ identifier +:+ ".sh").
Proof.
  intros (_ & _ & _ & _ & _ & _ & [m Hm])%add_post d launcher_path.
  subst d launcher_path. eexists _, m. split; [|split; [reflexivity|]].
  - rewrite canon_entry; [|apply startup_dir_nonempty|side..].
    rewrite Hm. f_equal. f_equal. unfold descriptor_text.
    by rewrite !append_assoc.
  - split; [|split; [|split]].
    + apply (infix_str_app ("[Desktop Entry]" +:+ nl +:+ "Type=Application" +:+ nl)
               ("Name=" +:+ identifier)).
    + pose proof (infix_str_app ("[Desktop Entry]" +:+ nl +:+ "Type=Application" +:+ nl
                                 +:+ "Name=" +:+ identifier +:+ nl)
                    ("Exec=" +:+ startup_dir (w_env w) system_wide +:+ "/" +:+ identifier
                     +:+ ".sh") nl) as Hi.
      rewrite !append_assoc in Hi. by rewrite !append_assoc.
    + intros ->. done.
    + intros h -> Hh. rewrite startup_dir_user, Hh.
      by rewrite !append_assoc.
Qed.

Lemma add_writes_descriptor_witness :
  ∃ (text : string) (mode : Z),
    w_fs (add "build" "/opt/build.sh" "python3" false "-v" w0).2
      !! ["build.desktop"; "autostart"; ".config"; "u"; "home"]
    = Some (File text mode)
    ∧ text = "[Desktop Entry]" +:+ nl +:+ "Type=Application" +:+ nl +:+
             "Name=build" +:+ nl +:+ "Exec=/home/u/.config/autostart/build.sh" +:+ nl
    ∧ infix_str "Name=build" text = true
    ∧ infix_str "Exec=/home/u/.config/autostart/build.sh" text = true.
Proof.
  destruct (add_writes_descriptor "build" "/opt/build.sh" "python3" false "-v" w0
              (add "build" "/opt/build.sh" "python3" false "-v" w0).2)
    as (text & mode & H1 & H2 & H3 & H4 & _); [by_eval|].
  exists text, mode. repeat split; assumption.
Defined.

(** C7: [add] overwrites.  When a first [add] for an identifier and
    scope returns without raising, a second [add] for the same identifier
    and scope, with any script, interpreter and arguments, returns without
    raising as well, and leaves the machine that this second call alone
    would have left: the launcher and the descriptor hold the texts of the
    second call, the tree has the same paths as after the first call (no
    further file appears), and every node other than those two files is as
    the first call left it. *)
Theorem add_twice_overwrites (identifier : string) (system_wide : bool)
    (script1 interp1 args1 script2 interp2 args2 : string) (w w1 : world) :
  add identifier script1 interp1 system_wide args1 w = (Ok (), w1) →
  let d := startup_dir (w_env w) system_wide in
  let launcher := canon (w_env w) (d +:+ "/" +:+ identifier +:+ ".sh") in
  let descriptor := canon (w_env w) (d +:+ "/" +:+ identifier +:+ ".desktop") in
  ∃ w2 : world,
    add identifier script2 interp2 system_wide args2 w1 = (Ok (), w2)
    ∧ add identifier script2 interp2 system_wide args2 w = (Ok (), w2)
    ∧ dom (w_fs w2) = dom (w_fs w1)
    ∧ launcher ≠ descriptor
    ∧ w_fs w2 !! launcher
      = Some (File (launcher_text interp2 script2 args2) (octal [7; 5; 5]))
    ∧ (∃ mode, w_fs w2 !! descriptor
               = Some (File (descriptor_text identifier (d +:+ "/" +:+ identifier)) mode))
    ∧ ∀ q, q ≠ launcher → q ≠ descriptor → w_fs w2 !! q = w_fs w1 !! q.
Proof.
  intros H1 d launcher descriptor. subst d launcher descriptor.
  pose proof (startup_dir_nonempty (w_env w) system_wide) as Hd.
  rewrite !canon_entry by side.
  apply add_post in H1 as Hpost. destruct Hpost as (_ & Hnul & Hwalk & Hdir & Hreach & HL & [m HD]).
  apply add_ok in H1 as (wM & HM & HreachM & HcL & HcD & ->).
  set (d := startup_dir (w_env w) system_wide) in *.
  set (L := (base_name identifier +:+ ".sh") :: holder (w_env w) d identifier) in *.
  set (D := (base_name identifier +:+ ".desktop") :: holder (w_env w) d identifier) in *.
  assert (L ≠ D) as Hne by apply launcher_ne_descriptor.
  simpl in Hwalk, Hdir. clear HL HD.
  exists (set_fs w (<[D := File (descriptor_text identifier (d +:+ "/" +:+ identifier))
                          (mode_after_open wM D)]>
                  (<[L := File (launcher_text interp2 script2 args2) (octal [7; 5; 5])]>
                   (w_fs wM)))).
  split; [|split; [|split; [|split; [|split; [|split]]]]].
  - apply add_ok. eexists. split; [|split; [|split; [|split]]].
    + by apply makedirs_noop.
    + done.
    + simpl. fold d. unfold can_write. rewrite lookup_node_cons. fold L D.
      rewrite lookup_insert_ne by done. by rewrite lookup_insert_eq.
    + simpl. fold d. unfold can_write. rewrite lookup_node_cons. fold L D.
      by rewrite lookup_insert_eq.
    + simpl. fold d L D. apply world_eq; simpl; [done|].
      rewrite (insert_insert_ne _ L D) by done.
      rewrite insert_insert_eq, insert_insert_eq. do 2 f_equal.
      symmetry. unfold mode_after_open at 1. simpl. by rewrite lookup_insert_eq.
  - apply add_ok. by exists wM.
  - simpl. rewrite !dom_insert_L. done.
  - done.
  - simpl. rewrite lookup_insert_ne by done. by rewrite lookup_insert_eq.
  - eexists. simpl. by rewrite lookup_insert_eq.
  - intros q HqL HqD. simpl. by rewrite !lookup_insert_ne.
Qed.

Lemma add_twice_overwrites_witness :
  ∃ w2 : world,
    add "build" "/opt/other.sh" "sh" false ""
      (add "build" "/opt/build.sh" "python3" false "-v" w0).2 = (Ok (), w2)
    ∧ dom (w_fs w2) = dom (w_fs (add "build" "/opt/build.sh" "python3" false "-v" w0).2)
    ∧ w_fs w2 !! ["build.sh"; "autostart"; ".config"; "u"; "home"]
      = Some (File ("#!/bin/bash" +:+ nl +:+ nl +:+ "sh /opt/other.sh " +:+ nl) 493).
Proof.
  destruct (add_twice_overwrites "build" false "/opt/build.sh" "python3" "-v"
              "/opt/other.sh" "sh" "" w0
              (add "build" "/opt/build.sh" "python3" false "-v" w0).2)
    as (w2 & H1 & _ & H3 & _ & H5 & _); [by_eval|].
  exists w2. repeat split; assumption.
Defined.

Lemma remove_then_check_witness :
  check "build" false
    (remove "build" false (add "build" "/opt/build.sh" "python3" false "-v" w0).2).2
  = (Ok false,
     (remove "build" false (add "build" "/opt/build.sh" "python3" false "-v" w0).2).2).
Proof.
  apply (remove_then_check "build" false
           (add "build" "/opt/build.sh" "python3" false "-v" w0).2 _ true); by_eval.
Defined.

Example remove_after_add :
  remove "build" false (add "build" "/opt/build.sh" "python3" false "-v" w0).2
  = (Ok true, set_fs w0 (<[ ["autostart"; ".config"; "u"; "home"] := Dir ]>
                         (<[ [".config"; "u"; "home"] := Dir ]> fs0))).
Proof. by_eval. Qed.

(* ===================================================================== *)
(** ** What [add] leaves alone *)
(* ===================================================================== *)

Lemma visited_from_last cur comps : canon_from cur comps ∈ visited_from cur comps.
Proof.
  revert cur. induction comps as [|x comps IH]; simpl; intros cur; [set_solver|].
  apply elem_of_cons. right. apply IH.
Qed.

(** Whatever its outcome, [add] changes nothing but the launcher, the
    descriptor and the directories [os.makedirs] creates on the way to the
    startup directory. *)
Lemma add_frame_any i p n s a w r w' :
  add i p n s a w = (r, w') →
  w_env w' = w_env w
  ∧ ∀ q, q ≠ canon (w_env w) (startup_dir (w_env w) s +:+ "/" +:+ i +:+ ".sh") →
         q ≠ canon (w_env w) (startup_dir (w_env w) s +:+ "/" +:+ i +:+ ".desktop") →
         w_fs w' !! q = w_fs w !! q
         ∨ (q ∈ visited (w_env w) (startup_dir (w_env w) s)
            ∧ w_fs w !! q = None ∧ w_fs w' !! q = Some Dir).
Proof.
  unfold add. rewrite bind_run, startup_folder_run, !append_assoc, bind_run.
  destruct (os_makedirs (startup_dir (w_env w) s) w) as [[[]|e1] wM] eqn:HM; cycle 1.
  { intros [= <- <-]. split; [by eapply (makedirs_frame _ _ _ _ [])|].
    intros q _ _. by eapply makedirs_frame. }
  assert (w_env wM = w_env w) as HeM by (by eapply (makedirs_frame _ _ _ _ [])).
  intros Hrest.
  enough (w_env w' = w_env wM
          ∧ ∀ q, q ≠ canon (w_env w) (startup_dir (w_env w) s +:+ "/" +:+ i +:+ ".sh") →
                 q ≠ canon (w_env w) (startup_dir (w_env w) s +:+ "/" +:+ i +:+ ".desktop") →
                 w_fs w' !! q = w_fs wM !! q) as [He Hq].
  { split; [congruence|]. intros q HL HD. rewrite (Hq q HL HD).
    by eapply makedirs_frame. }
  revert Hrest. rewrite bind_run.
  destruct ((open_w _ ≫= _) wM) as [[[]|e2] w2] eqn:H2;
    apply write_frame in H2 as [He2 Hf2]; rewrite HeM in Hf2; cycle 1.
  { intros [= <- <-]. split; [done|]. intros q HL _. by apply Hf2. }
  rewrite bind_run.
  destruct (os_chmod _ _ w2) as [[[]|e3] w3] eqn:H3;
    apply chmod_frame in H3 as [He3 Hf3]; rewrite He2, HeM in Hf3; cycle 1.
  { intros [= <- <-]. split; [congruence|]. intros q HL _. rewrite Hf3 by done. by apply Hf2. }
  intros [He4 Hf4]%write_frame. rewrite He3, He2, HeM in Hf4.
  split; [congruence|]. intros q HL HD. rewrite Hf4, Hf3 by done. by apply Hf2.
Qed.

Lemma user_dir_shape e :
  ∃ X, canon e (startup_dir e false) = "autostart" :: ".config" :: X.
Proof.
  rewrite startup_dir_user. destruct (home_of e) as [h|]; [|by eexists].
  unfold canon. change "/.config/autostart" with (String "/"%char ".config/autostart").
  rewrite split_on_app_sep, canon_from_app. by eexists.
Qed.

(** Nothing on the way to /etc/init.d, and no file directly in it, lies
    at or under a directory of the form .../.config/autostart. *)
Lemma system_paths_outside_user X q :
  inside ("autostart" :: ".config" :: X) q →
  q ∈ [[]; []; ["etc"]; ["init.d"; "etc"]] ∨ (∃ x, q = [x; "init.d"; "etc"]) → False.
Proof.
  intros [k ->] [Hq|[x Hq]].
  - repeat (apply elem_of_cons in Hq as [Hq|Hq];
            [by repeat (destruct k as [|? k]; simplify_eq/=)|]).
    by apply elem_of_nil in Hq.
  - by repeat (destruct k as [|? k]; simplify_eq/=).
Qed.

(** C8, as amended: what [add] leaves alone.  On a tree in which every
    node has one path (no symbolic link, hard link or mount point, as in
    every tree of this model), for an identifier without a slash, and
    whatever the outcome of [add]: the environment is unchanged; every node other than <identifier>.sh and
    <identifier>.desktop directly in the startup directory of the flag is
    as before, or is a directory that was missing on the way to the
    startup directory and has been created.  With the system-wide flag set,
    nothing at or under the per-user directory changes.  With the flag
    unset, nothing at or under the system-wide directory changes, provided
    the path of the per-user directory does not pass through the
    system-wide directory. *)
Theorem add_frame (identifier script_location interpreter : string)
    (system_wide : bool) (arguments : string) (w w' : world) (r : outcome unit) :
  has_char "/"%char identifier = false →
  add identifier script_location interpreter system_wide arguments w = (r, w') →
  let e := w_env w in
  let d := startup_dir e system_wide in
  let launcher := (identifier +:+ ".sh") :: canon e d in
  let descriptor := (identifier +:+ ".desktop") :: canon e d in
  w_env w' = e
  ∧ canon e (d +:+ "/" +:+ identifier +:+ ".sh") = launcher
  ∧ canon e (d +:+ "/" +:+ identifier +:+ ".desktop") = descriptor
  ∧ (∀ q, q ≠ launcher → q ≠ descriptor →
          w_fs w' !! q = w_fs w !! q
          ∨ (q ∈ visited e d ∧ w_fs w !! q = None ∧ w_fs w' !! q = Some Dir))
  ∧ (system_wide = true →
     ∀ q, inside (canon e (startup_dir e false)) q → w_fs w' !! q = w_fs w !! q)
  ∧ (system_wide = false →
     Forall (λ v, ¬ inside (canon e (startup_dir e true)) v) (visited e d) →
     ∀ q, inside (canon e (startup_dir e true)) q → w_fs w' !! q = w_fs w !! q).
Proof.
  intros Hslash Hadd e d launcher descriptor.
  apply add_frame_any in Hadd as [He Hframe]. fold e d in Hframe.
  pose proof (startup_dir_nonempty e system_wide) as Hd.
  destruct (names_no_slash identifier Hslash) as [Hp Hb].
  assert (canon e (d +:+ "/" +:+ identifier +:+ ".sh") = launcher) as HL.
  { rewrite canon_entry by side. unfold holder. by rewrite Hp, Hb. }
  assert (canon e (d +:+ "/" +:+ identifier +:+ ".desktop") = descriptor) as HD.
  { rewrite canon_entry by side. unfold holder. by rewrite Hp, Hb. }
  rewrite HL, HD in Hframe.
  destruct (user_dir_shape e) as [X HU].
  split; [done|]. split; [done|]. split; [done|]. split; [done|]. split.
  - intros -> q Hin. rewrite HU in Hin.
    assert (∀ x, q ≠ x :: canon e (startup_dir e true)) as Hne.
    { intros x ->. eapply system_paths_outside_user; [done|]. right. by eexists. }
    destruct (Hframe q (Hne _) (Hne _)) as [?|(Hv & _)]; [done|].
    exfalso. eapply system_paths_outside_user; [done|]. by left.
  - intros -> Hfar q Hin. rewrite Forall_forall in Hfar.
    assert (∀ x, q ≠ x :: canon e d) as Hne.
    { intros x ->. apply suffix_cons_inv in Hin as [Heq|Hin].
      - unfold d in Heq. rewrite HU in Heq. done.
      - apply (Hfar (canon e d)); [apply visited_from_last|done]. }
    destruct (Hframe q (Hne _) (Hne _)) as [?|(Hv & _)]; [done|].
    by destruct (Hfar q Hv).
Qed.

Lemma add_frame_witness :
  (∀ q, inside ["autostart"; ".config"; "u"; "home"] q →
        w_fs (add "build" "/opt/build.sh" "python3" true "-v" w0).2 !! q = w_fs w0 !! q)
  ∧ (∀ q, inside ["init.d"; "etc"] q →
          w_fs (add "build" "/opt/build.sh" "python3" false "-v" w0).2 !! q = w_fs w0 !! q).
Proof.
  split.
  - apply (add_frame "build" "/opt/build.sh" "python3" true "-v" w0
             (add "build" "/opt/build.sh" "python3" true "-v" w0).2
             (add "build" "/opt/build.sh" "python3" true "-v" w0).1);
      [reflexivity|by_eval|reflexivity].
  - apply (add_frame "build" "/opt/build.sh" "python3" false "-v" w0
             (add "build" "/opt/build.sh" "python3" false "-v" w0).2
             (add "build" "/opt/build.sh" "python3" false "-v" w0).1);
      [reflexivity|by_eval|reflexivity|by_eval].
Defined.

(** C8, as stated, fails on three counts.  An identifier with slashes
    leads out of the startup directory: the per-user [add] of
    ../../../../etc/init.d/x writes /etc/init.d/x.sh, which is under the
    system-wide directory and not under the per-user one.  A home
    directory inside /etc/init.d puts the per-user directory under the
    system-wide one, which then changes.  And [os.makedirs] creates the
    missing directories above the startup directory, here /home/u/.config,
    which is not under /home/u/.config/autostart. *)
Lemma add_reaches_outside :
  ((add "../../../../etc/init.d/x" "/opt/x.sh" "sh" false "" w0).1 = Ok ()
   ∧ w_fs w0 !! ["x.sh"; "init.d"; "etc"] = None
   ∧ w_fs (add "../../../../etc/init.d/x" "/opt/x.sh" "sh" false "" w0).2
       !! ["x.sh"; "init.d"; "etc"]
     = Some (File ("#!/bin/bash" +:+ nl +:+ nl +:+ "sh /opt/x.sh " +:+ nl) 493)
   ∧ inside (canon env0 (startup_dir env0 true)) ["x.sh"; "init.d"; "etc"]
   ∧ ¬ inside (canon env0 (startup_dir env0 false)) ["x.sh"; "init.d"; "etc"])
  ∧ ((add "x" "/opt/x.sh" "sh" false "" w_nested).1 = Ok ()
     ∧ w_fs w_nested !! [".config"; "init.d"; "etc"] = None
     ∧ w_fs (add "x" "/opt/x.sh" "sh" false "" w_nested).2 !! [".config"; "init.d"; "etc"]
       = Some Dir
     ∧ inside (canon env_nested (startup_dir env_nested true)) [".config"; "init.d"; "etc"])
  ∧ ((add "build" "/opt/build.sh" "python3" false "-v" w0).1 = Ok ()
     ∧ w_fs w0 !! [".config"; "u"; "home"] = None
     ∧ w_fs (add "build" "/opt/build.sh" "python3" false "-v" w0).2 !! [".config"; "u"; "home"]
       = Some Dir
     ∧ ¬ inside (canon env0 (startup_dir env0 false)) [".config"; "u"; "home"]).
Proof. repeat split; by_eval. Qed.

(* ===================================================================== *)
(** ** The tree stays well formed *)
(* ===================================================================== *)

Lemma wf_insert_dir fs cur :
  wf_fs fs → is_dir fs (tail cur) → wf_fs (<[cur := Dir]> fs).
Proof.
  intros Hwf Hpar p n Hp. simpl. apply is_dir_insert_dir.
  destruct (decide (cur = p)) as [<-|Hne]; [done|].
  rewrite lookup_insert_ne in Hp by done. by eapply Hwf.
Qed.

Lemma wf_insert_file fs c s m :
  wf_fs fs → can_write fs c → wf_fs (<[c := File s m]> fs).
Proof.
  intros Hwf Hc p n Hp. simpl.
  apply is_dir_insert_file; [by apply can_write_not_dir|].
  destruct (decide (c = p)) as [<-|Hne].
  - unfold can_write in Hc. destruct c as [|x c]; [done|]. rewrite lookup_node_cons in Hc.
    destruct (fs !! (x :: c)) as [[|]|] eqn:E; [done| |done]. by eapply (Hwf (x :: c)).
  - rewrite lookup_insert_ne in Hp by done. by eapply Hwf.
Qed.

Lemma wf_delete_file fs c :
  wf_fs fs → ¬ is_dir fs c → wf_fs (delete c fs).
Proof.
  intros Hwf Hc p n Hp. simpl. apply is_dir_delete_file; [done|].
  apply lookup_delete_Some in Hp as [_ Hp]. by eapply Hwf.
Qed.

Lemma mkdirs_wf fs cur comps r fs' :
  wf_fs fs → mkdirs fs cur comps = (r, fs') → wf_fs fs'.
Proof.
  revert fs cur. induction comps as [|x comps IH]; simpl; intros fs cur Hwf.
  - destruct (lookup_node fs cur) as [[|]|]; try by intros [= _ <-].
    unfold mkdir_at. destruct (lookup_node fs (tail cur)) as [[|]|] eqn:E;
      intros [= _ <-]; try done. by apply wf_insert_dir.
  - destruct (lookup_node fs cur) as [[|]|]; [by apply IH|by intros [= _ <-]|].
    unfold mkdir_at. destruct (lookup_node fs (tail cur)) as [[|]|] eqn:E;
      try by intros [= _ <-]. apply IH. by apply wf_insert_dir.
Qed.

Lemma makedirs_wf name w r w' :
  wf_fs (w_fs w) → os_makedirs name w = (r, w') → wf_fs (w_fs w').
Proof.
  intros Hwf. unfold os_makedirs. destruct (has_nul name); [by intros [= _ <-]|].
  case_decide; [by intros [= _ <-]|].
  destruct (mkdirs _ _ _) as [r1 fs'] eqn:E. intros [= _ <-]. by eapply mkdirs_wf.
Qed.

Lemma write_wf p text w r w' :
  wf_fs (w_fs w) → (open_w p ≫= λ f, f_write f text) w = (r, w') → wf_fs (w_fs w').
Proof.
  intros Hwf H. destruct r as [[]|e].
  - apply write_ok in H as (c & _ & Hc & ->). by apply wf_insert_file.
  - revert H. rewrite bind_run. unfold open_w, f_write.
    destruct (resolve w p) as [c|]; [|by intros [= _ <-]].
    destruct (lookup_node (w_fs w) c) as [[|s m]|]; [by intros [= _ <-]| |].
    + simpl. by rewrite lookup_insert_eq.
    + destruct (lookup_node (w_fs w) (tail c)) as [[|]|]; try by intros [= _ <-].
      simpl. by rewrite lookup_insert_eq.
Qed.

Lemma chmod_wf p mode w r w' :
  wf_fs (w_fs w) → os_chmod p mode w = (r, w') → wf_fs (w_fs w').
Proof.
  intros Hwf. unfold os_chmod. destruct (resolve w p) as [c|]; [|by intros [= _ <-]].
  destruct (lookup_node (w_fs w) c) as [[|s m]|] eqn:E; try by intros [= _ <-].
  intros [= _ <-]. apply wf_insert_file; [done|]. unfold can_write. by rewrite E.
Qed.

Lemma os_remove_wf p w r w' :
  wf_fs (w_fs w) → os_remove p w = (r, w') → wf_fs (w_fs w').
Proof.
  intros Hwf. unfold os_remove. destruct (resolve w p) as [c|]; [|by intros [= _ <-]].
  destruct (lookup_node (w_fs w) c) as [[|s m]|] eqn:E; try by intros [= _ <-].
  intros [= _ <-]. apply wf_delete_file; [done|]. unfold is_dir. by rewrite E.
Qed.

(** [add] and [remove], whatever their outcome, leave a well-formed tree
    well formed. *)
Lemma add_wf i p n s a w r w' :
  wf_fs (w_fs w) → add i p n s a w = (r, w') → wf_fs (w_fs w').
Proof.
  intros Hwf. unfold add. rewrite bind_run, startup_folder_run, bind_run.
  destruct (os_makedirs _ w) as [[[]|] wM] eqn:HM;
    apply makedirs_wf in HM; [|done|by intros [= _ <-]|done].
  rewrite bind_run. destruct ((open_w _ ≫= _) wM) as [[[]|] w2] eqn:H2;
    apply write_wf in H2; [|done|by intros [= _ <-]|done].
  rewrite bind_run. destruct (os_chmod _ _ w2) as [[[]|] w3] eqn:H3;
    apply chmod_wf in H3; [|done|by intros [= _ <-]|done].
  by apply write_wf.
Qed.

Lemma remove_list_wf ps w r w' :
  wf_fs (w_fs w) → remove_list ps w = (r, w') → wf_fs (w_fs w').
Proof.
  revert w. induction ps as [|p ps IH]; intros w Hwf; [by intros [= _ <-]|].
  simpl. rewrite bind_run. destruct (exists_total p w) as [present ->].
  rewrite bind_run. destruct present.
  - destruct (os_remove p w) as [[[]|] w1] eqn:H1;
      apply os_remove_wf in H1; [|done|by intros [= _ <-]|done]. by apply IH.
  - by apply IH.
Qed.

Lemma remove_wf i s w r w' :
  wf_fs (w_fs w) → remove i s w = (r, w') → wf_fs (w_fs w').
Proof. rewrite remove_run. apply remove_list_wf. Qed.

Example fs0_wf : wf_fs fs0.
Proof. by_eval. Qed.

(* ===================================================================== *)
(** ** More on [add]: what it keeps *)
(* ===================================================================== *)

Lemma keeps_nodes_refl fs : keeps_nodes fs fs.
Proof. intros q [|s m] Hq; [done|]. by exists s, m. Qed.

Lemma keeps_nodes_trans fs1 fs2 fs3 :
  keeps_nodes fs1 fs2 → keeps_nodes fs2 fs3 → keeps_nodes fs1 fs3.
Proof.
  intros H12 H23 q n Hq. specialize (H12 q n Hq). destruct n as [|s m].
  - by apply (H23 q Dir).
  - destruct H12 as (s' & m' & H2). by apply (H23 q (File s' m')).
Qed.

Lemma keeps_nodes_insert_file fs c s m :
  fs !! c ≠ Some Dir → keeps_nodes fs (<[c := File s m]> fs).
Proof.
  intros Hc q n Hq. destruct (decide (c = q)) as [->|Hne].
  - rewrite lookup_insert_eq. destruct n; [done|]. by eexists _, _.
  - rewrite lookup_insert_ne by done. by apply keeps_nodes_refl.
Qed.

Lemma makedirs_keeps name w r w' :
  os_makedirs name w = (r, w') → keeps_nodes (w_fs w) (w_fs w').
Proof.
  intros H q n Hq.
  destruct (makedirs_frame _ _ _ _ q H) as [_ [E|(_ & E & _)]]; [|congruence].
  rewrite E. by apply keeps_nodes_refl.
Qed.

Lemma write_keeps p text w r w' :
  (open_w p ≫= λ f, f_write f text) w = (r, w') → keeps_nodes (w_fs w) (w_fs w').
Proof.
  rewrite bind_run. unfold open_w, f_write.
  destruct (resolve w p) as [c|]; [|intros [= _ <-]; apply keeps_nodes_refl].
  destruct c as [|x c]; [intros [= _ <-]; apply keeps_nodes_refl|].
  rewrite lookup_node_cons.
  destruct (w_fs w !! (x :: c)) as [[|s m]|] eqn:E;
    [intros [= _ <-]; apply keeps_nodes_refl| |].
  - simpl. rewrite lookup_insert_eq. intros [= _ <-]. simpl.
    rewrite insert_insert_eq. apply keeps_nodes_insert_file. congruence.
  - destruct (lookup_node (w_fs w) (tail (x :: c))) as [[|]|];
      try (intros [= _ <-]; apply keeps_nodes_refl).
    simpl. rewrite lookup_insert_eq. intros [= _ <-]. simpl.
    rewrite insert_insert_eq. apply keeps_nodes_insert_file. congruence.
Qed.

Lemma chmod_keeps p mode w r w' :
  os_chmod p mode w = (r, w') → keeps_nodes (w_fs w) (w_fs w').
Proof.
  unfold os_chmod. destruct (resolve w p) as [c|]; [|intros [= _ <-]; apply keeps_nodes_refl].
  destruct c as [|x c]; [intros [= _ <-]; apply keeps_nodes_refl|].
  rewrite lookup_node_cons.
  destruct (w_fs w !! (x :: c)) as [[|s m]|] eqn:E;
    try (intros [= _ <-]; apply keeps_nodes_refl).
  intros [= _ <-]. simpl. apply keeps_nodes_insert_file. congruence.
Qed.

Lemma add_keeps i p n s a w r w' :
  add i p n s a w = (r, w') → keeps_nodes (w_fs w) (w_fs w').
Proof.
  unfold add. rewrite bind_run, startup_folder_run, bind_run.
  destruct (os_makedirs _ w) as [[[]|] wM] eqn:HM; apply makedirs_keeps in HM;
    [|by intros [= _ <-]].
  rewrite bind_run. destruct ((open_w _ ≫= _) wM) as [[[]|] w2] eqn:H2;
    apply write_keeps in H2;
    [|intros [= _ <-]; by eapply keeps_nodes_trans].
  rewrite bind_run. destruct (os_chmod _ _ w2) as [[[]|] w3] eqn:H3;
    apply chmod_keeps in H3;
    [|intros [= _ <-]; eapply keeps_nodes_trans; [|done]; by eapply keeps_nodes_trans].
  intros H4%write_keeps.
  eapply keeps_nodes_trans; [|done]. eapply keeps_nodes_trans; [|done].
  by eapply keeps_nodes_trans.
Qed.

Lemma keeps_nodes_dirs fs fs' q : keeps_nodes fs fs' → is_dir fs q → is_dir fs' q.
Proof. intros Hk. unfold is_dir. destruct q as [|x q]; [done|]. simpl. apply (Hk _ Dir). Qed.

Lemma add_env i p n s a w r w' : add i p n s a w = (r, w') → w_env w' = w_env w.
Proof. by intros [He _]%add_frame_any. Qed.

(** A path that exists still exists in a tree that keeps every node. *)
Lemma exists_at_keeps w w' p :
  w_env w' = w_env w → keeps_nodes (w_fs w) (w_fs w') → exists_at w p → exists_at w' p.
Proof.
  intros He Hk (c & n & Hr & Hn). unfold exists_at, resolve in *. rewrite He.
  destruct (has_nul p); [done|]. case_decide; [done|].
  exists c. erewrite walk_mono; [| |exact Hr]; [|intros q; by apply keeps_nodes_dirs].
  destruct c as [|x c]; [by eexists|]. simpl in *.
  specialize (Hk _ _ Hn). destruct n as [|s m]; [by eexists|].
  destruct Hk as (s' & m' & ->). by eexists.
Qed.

Lemma add_keeps_check i p n s a w r w' i' s' :
  add i p n s a w = (r, w') →
  check i' s' w = (Ok true, w) → check i' s' w' = (Ok true, w').
Proof.
  intros Hadd Hc. apply add_env in Hadd as He. apply add_keeps in Hadd.
  apply check_true. apply check_true in Hc. rewrite He. by eapply exists_at_keeps.
Qed.

(** X2: [add] never deletes.  Whatever its arguments and its outcome,
    [add] leaves every directory a directory and every regular file a
    regular file: no path that was there is gone afterwards, and the
    environment is unchanged. *)
Theorem add_never_deletes (identifier script_location interpreter : string)
    (system_wide : bool) (arguments : string) (w w' : world) (r : outcome unit) :
  add identifier script_location interpreter system_wide arguments w = (r, w') →
  w_env w' = w_env w
  ∧ (∀ q, w_fs w !! q = Some Dir → w_fs w' !! q = Some Dir)
  ∧ (∀ q s m, w_fs w !! q = Some (File s m) → ∃ s' m', w_fs w' !! q = Some (File s' m'))
  ∧ dom (w_fs w) ⊆ dom (w_fs w').
Proof.
  intros Hadd. apply add_env in Hadd as He. apply add_keeps in Hadd as Hk.
  split; [done|]. split; [|split].
  - intros q Hq. by apply (Hk q Dir).
  - intros q s m Hq. by apply (Hk q (File s m)).
  - intros q [n Hq]%elem_of_dom. apply elem_of_dom. specialize (Hk q n Hq).
    destruct n; [by eexists|]. destruct Hk as (? & ? & ->). by eexists.
Qed.

Lemma add_never_deletes_witness :
  dom (w_fs w0) ⊆ dom (w_fs (add "build" "/opt/build.sh" "python3" false "-v" w0).2).
Proof.
  apply (add_never_deletes "build" "/opt/build.sh" "python3" false "-v" w0
           (add "build" "/opt/build.sh" "python3" false "-v" w0).2
           (add "build" "/opt/build.sh" "python3" false "-v" w0).1).
  by_eval.
Defined.

(** X11: [add] never unregisters.  For every identifier and scope for
    which [check] returns [True], [check] still returns [True] after an
    [add] of any identifier in any scope, whether that [add] returned or
    raised. *)
Theorem add_never_unregisters (identifier script_location interpreter : string)
    (system_wide : bool) (arguments : string) (w w' : world) (r : outcome unit)
    (other : string) (other_scope : bool) :
  check other other_scope w = (Ok true, w) →
  add identifier script_location interpreter system_wide arguments w = (r, w') →
  check other other_scope w' = (Ok true, w').
Proof. intros Hc Hadd. by eapply add_keeps_check. Qed.

Lemma add_never_unregisters_witness :
  check "build" false
    (add "other" "/opt/o.sh" "sh" true ""
       (add "build" "/opt/build.sh" "python3" false "-v" w0).2).2
  = (Ok true,
     (add "other" "/opt/o.sh" "sh" true ""
        (add "build" "/opt/build.sh" "python3" false "-v" w0).2).2).
Proof.
  apply (add_never_unregisters "other" "/opt/o.sh" "sh" true ""
           (add "build" "/opt/build.sh" "python3" false "-v" w0).2 _
           (add "other" "/opt/o.sh" "sh" true ""
              (add "build" "/opt/build.sh" "python3" false "-v" w0).2).1);
    by_eval.
Defined.

(* ===================================================================== *)
(** ** More on [add]: when it succeeds and how it fails *)
(* ===================================================================== *)



(** X1: when [add] can succeed.  For every identifier, [add] returns
    without raising only if the identifier has no NUL byte,
    [os.makedirs] of the startup directory succeeded and left a directory
    there, and, in the tree [os.makedirs] left, neither the launcher path
    nor the descriptor path led to a directory.  So [add] raises whenever
    one of the two is a directory. *)
Theorem add_succeeds_only_if (identifier script_location interpreter : string)
    (system_wide : bool) (arguments : string) (w w' : world) :
  add identifier script_location interpreter system_wide arguments w = (Ok (), w') →
  let d := startup_dir (w_env w) system_wide in
  has_nul identifier = false
  ∧ ∃ wM, os_makedirs d w = (Ok (), wM)
          ∧ is_dir (w_fs wM) (canon (w_env w) d)
          ∧ w_fs wM !! canon (w_env w) (d +:+ "/" +:+ identifier +:+ ".sh") ≠ Some Dir
          ∧ w_fs wM !! canon (w_env w) (d +:+ "/" +:+ identifier +:+ ".desktop")
            ≠ Some Dir.
Proof.
  intros (wM & HM & (_ & Hn & _) & HL & HD & _)%add_ok d. subst d.
  split; [done|]. exists wM. split; [done|].
  apply makedirs_ok in HM as (_ & _ & _ & _ & Hdir & _). split; [done|].
  rewrite !canon_entry by (side || apply startup_dir_nonempty).
  apply can_write_not_dir in HL, HD. split; [exact HL|exact HD].
Qed.

Lemma add_succeeds_only_if_witness :
  has_nul "build" = false
  ∧ ∃ wM, os_makedirs "/home/u/.config/autostart" w0 = (Ok (), wM)
          ∧ is_dir (w_fs wM) ["autostart"; ".config"; "u"; "home"]
          ∧ w_fs wM !! ["build.sh"; "autostart"; ".config"; "u"; "home"] ≠ Some Dir
          ∧ w_fs wM !! ["build.desktop"; "autostart"; ".config"; "u"; "home"] ≠ Some Dir.
Proof.
  apply (add_succeeds_only_if "build" "/opt/build.sh" "python3" false "-v" w0
           (add "build" "/opt/build.sh" "python3" false "-v" w0).2).
  by_eval.
Defined.




Lemma append_inj_len s s' t t' :
  String.length t = String.length t' → s +:+ t = s' +:+ t' → s = s' ∧ t = t'.
Proof.
  intros Hl. revert s'. induction s as [|a s IH]; intros [|b s'] E.
  - done.
  - apply (f_equal String.length) in E. rewrite !length_append in E. simpl in E. lia.
  - apply (f_equal String.length) in E. rewrite !length_append in E. simpl in E. lia.
  - rewrite !append_cons in E. injection E as -> E. by destruct (IH _ E) as [-> ->].
Qed.

(** Identifiers without slash that differ have different files. *)
Lemma files_of_different_identifiers i j :
  i ≠ j →
  i +:+ ".sh" ≠ j +:+ ".sh" ∧ i +:+ ".desktop" ≠ j +:+ ".desktop"
  ∧ i +:+ ".sh" ≠ j +:+ ".desktop" ∧ i +:+ ".desktop" ≠ j +:+ ".sh".
Proof.
  intros Hne. repeat split; intros E.
  - by apply append_inj_len in E as [? _].
  - by apply append_inj_len in E as [? _].
  - change (j +:+ ".desktop") with (j +:+ ".desk" +:+ "top") in E.
    rewrite <- append_assoc in E. by apply append_inj_len in E as [_ ?].
  - change (i +:+ ".desktop") with (i +:+ ".desk" +:+ "top") in E.
    rewrite <- append_assoc in E. by apply append_inj_len in E as [_ ?].
Qed.

(** X3: registrations do not disturb each other.  For two different
    identifiers without slash and one scope, an [add] of the one, whatever
    its outcome, leaves the launcher and the descriptor of the other as
    they were: the same text and the same permission bits. *)
Theorem add_leaves_other_identifier (identifier script_location interpreter : string)
    (system_wide : bool) (arguments : string) (w w' : world) (r : outcome unit)
    (other : string) :
  other ≠ identifier →
  has_char "/"%char identifier = false → has_char "/"%char other = false →
  add identifier script_location interpreter system_wide arguments w = (r, w') →
  let d := startup_dir (w_env w) system_wide in
  canon (w_env w) (d +:+ "/" +:+ other +:+ ".sh") = (other +:+ ".sh") :: canon (w_env w) d
  ∧ canon (w_env w) (d +:+ "/" +:+ other +:+ ".desktop")
    = (other +:+ ".desktop") :: canon (w_env w) d
  ∧ (∀ n, w_fs w !! ((other +:+ ".sh") :: canon (w_env w) d) = Some n →
          w_fs w' !! ((other +:+ ".sh") :: canon (w_env w) d) = Some n)
  ∧ (∀ n, w_fs w !! ((other +:+ ".desktop") :: canon (w_env w) d) = Some n →
          w_fs w' !! ((other +:+ ".desktop") :: canon (w_env w) d) = Some n).
Proof.
  intros Hne Hsi Hso Hadd d. subst d.
  pose proof (startup_dir_nonempty (w_env w) system_wide) as Hd.
  apply add_frame_any in Hadd as [_ Hframe].
  destruct (names_no_slash identifier Hsi) as [Hpi Hbi].
  destruct (names_no_slash other Hso) as [Hpo Hbo].
  rewrite !canon_entry in Hframe by side. rewrite !canon_entry by side.
  unfold holder in *. rewrite Hpi, Hbi in Hframe. rewrite Hpo, Hbo. simpl in *.
  destruct (files_of_different_identifiers other identifier Hne) as (H1 & H2 & H3 & H4).
  split; [done|]. split; [done|]. split; intros n Hn.
  - destruct (Hframe ((other +:+ ".sh") :: canon (w_env w) (startup_dir (w_env w) system_wide)))
      as [E|(_ & E & _)]; congruence.
  - destruct (Hframe ((other +:+ ".desktop")
                      :: canon (w_env w) (startup_dir (w_env w) system_wide)))
      as [E|(_ & E & _)]; congruence.
Qed.

Lemma add_leaves_other_identifier_witness :
  w_fs (add "other" "/opt/o.sh" "sh" false ""
          (add "build" "/opt/build.sh" "python3" false "-v" w0).2).2
    !! ["build.sh"; "autostart"; ".config"; "u"; "home"]
  = Some (File ("#!/bin/bash" +:+ nl +:+ nl +:+ "python3 /opt/build.sh -v" +:+ nl) 493).
Proof.
  apply (add_leaves_other_identifier "other" "/opt/o.sh" "sh" false ""
           (add "build" "/opt/build.sh" "python3" false "-v" w0).2
           (add "other" "/opt/o.sh" "sh" false ""
              (add "build" "/opt/build.sh" "python3" false "-v" w0).2).2
           (add "other" "/opt/o.sh" "sh" false ""
              (add "build" "/opt/build.sh" "python3" false "-v" w0).2).1
           "build");
    [discriminate|reflexivity|reflexivity|by_eval|vm_compute; reflexivity].
Defined.

(** X5: an identifier with a NUL byte cannot be registered.  For such an
    identifier [check] returns [False] on every machine; [add] never
    returns normally; and when [os.makedirs] of the startup directory
    succeeds, [add] raises [ValueError] at the first [open], leaving the
    directories just created and nothing else. *)
Theorem nul_identifier (identifier script_location interpreter : string)
    (system_wide : bool) (arguments : string) (w : world) :
  has_nul identifier = true →
  check identifier system_wide w = (Ok false, w)
  ∧ (∀ w', add identifier script_location interpreter system_wide arguments w ≠ (Ok (), w'))
  ∧ (∀ wM, os_makedirs (startup_dir (w_env w) system_wide) w = (Ok (), wM) →
           add identifier script_location interpreter system_wide arguments w
           = (Raise ValueError, wM)).
Proof.
  intros Hn.
  assert (∀ w1 suf, resolve w1 (startup_dir (w_env w) system_wide +:+ "/" +:+ identifier
                                +:+ suf) = Raise ValueError) as Hres.
  { intros w1 suf. unfold resolve, has_nul in *.
    change ("/" +:+ identifier +:+ suf) with (String "/"%char (identifier +:+ suf)).
    rewrite has_char_app. simpl. rewrite has_char_app, Hn. simpl.
    by rewrite orb_true_r. }
  split; [|split].
  - apply check_false. intros (c & n & Hr & _). by rewrite Hres in Hr.
  - intros w' (wM & _ & (_ & Hni & _) & _)%add_ok. congruence.
  - intros wM HM. unfold add.
    rewrite bind_run, startup_folder_run, !append_assoc, bind_run, HM, bind_run, bind_run.
    unfold open_w. by rewrite Hres.
Qed.

Lemma nul_identifier_witness :
  check (String "000"%char "x") false w0 = (Ok false, w0).
Proof.
  apply (nul_identifier (String "000"%char "x") "/opt/x.sh" "sh" false "" w0). reflexivity.
Defined.

Lemma mkdirs_blocked fs cur comps c s m :
  walk fs cur comps = Ok c → lookup_node fs c = Some (File s m) →
  mkdirs fs cur comps = (Raise FileExistsError, fs).
Proof.
  revert cur. induction comps as [|x comps IH]; simpl; intros cur Hw Hc.
  - injection Hw as ->. by rewrite Hc.
  - destruct (lookup_node fs cur) as [[|]|]; try done. by apply IH.
Qed.

(** X6: a regular file where the startup directory should be.  When the
    path of the startup directory leads to a regular file, [add] raises
    [FileExistsError] and changes nothing, for every identifier; and
    [check] returns [False] for every identifier. *)
Theorem startup_dir_is_a_file (identifier script_location interpreter : string)
    (system_wide : bool) (arguments : string) (w : world)
    (c : list string) (s : string) (m : Z) :
  resolve w (startup_dir (w_env w) system_wide) = Ok c →
  lookup_node (w_fs w) c = Some (File s m) →
  add identifier script_location interpreter system_wide arguments w
  = (Raise FileExistsError, w)
  ∧ check identifier system_wide w = (Ok false, w).
Proof.
  intros Hr Hc. pose proof (startup_dir_nonempty (w_env w) system_wide) as Hd.
  unfold resolve in Hr.
  destruct (has_nul (startup_dir (w_env w) system_wide)) eqn:Hn; [done|].
  rewrite decide_False in Hr by done. split.
  - unfold add. rewrite bind_run, startup_folder_run, bind_run. unfold os_makedirs.
    rewrite Hn, decide_False by done.
    rewrite (mkdirs_blocked _ _ _ _ _ _ Hr Hc). by rewrite set_fs_id.
  - apply check_false. intros (c' & n & Hr' & _). revert Hr'. unfold resolve.
    destruct (has_nul (_ +:+ _)); [done|]. case_decide; [done|].
    rewrite start_of_app by done.
    change ("/" +:+ identifier +:+ ".desktop")
      with (String "/"%char (identifier +:+ ".desktop")).
    rewrite split_on_app_sep, walk_app, Hr.
    pose proof (split_on_nonempty "/"%char (identifier +:+ ".desktop")).
    destruct (split_on "/"%char (identifier +:+ ".desktop")); [done|]. simpl.
    by rewrite Hc.
Qed.

Lemma startup_dir_is_a_file_witness :
  add "build" "/opt/build.sh" "python3" true "-v" w_blocked
  = (Raise FileExistsError, w_blocked)
  ∧ check "build" true w_blocked = (Ok false, w_blocked).
Proof.
  apply (startup_dir_is_a_file "build" "/opt/build.sh" "python3" true "-v" w_blocked
           ["init.d"; "etc"] "" (octal [6; 4; 4])); vm_compute; reflexivity.
Defined.

(* ===================================================================== *)
(** ** More on the startup directory and on identifiers *)
(* ===================================================================== *)

(** X7: an unknown home directory.  When [HOME] is unset and the
    password database has no entry for the user, the per-user startup
    directory is the unexpanded, relative path [~/.config/autostart]: a
    successful [add] of an identifier without slash then leaves a
    directory literally named [~] in the working directory and the
    launcher in [~/.config/autostart] under it. *)
Theorem unknown_home_is_relative (identifier script_location interpreter : string)
    (arguments : string) (w w' : world) :
  home_of (w_env w) = None →
  has_char "/"%char identifier = false →
  add identifier script_location interpreter false arguments w = (Ok (), w') →
  startup_dir (w_env w) false = "~/.config/autostart"
  ∧ is_dir (w_fs w') ("~" :: cwd (w_env w))
  ∧ w_fs w' !! ((identifier +:+ ".sh")
                 :: "autostart" :: ".config" :: "~" :: cwd (w_env w))
    = Some (File (launcher_text interpreter script_location arguments) (octal [7; 5; 5])).
Proof.
  intros Hh Hs (_ & _ & Hwalk & _ & _ & HL & _)%add_post.
  destruct (names_no_slash identifier Hs) as [Hp Hb].
  unfold holder in HL. rewrite Hp, Hb in HL. simpl in HL.
  rewrite startup_dir_user, Hh in *. split; [done|]. split; [|exact HL].
  revert Hwalk. unfold is_dir.
  change (split_on "/"%char "~/.config/autostart") with ["~"; ".config"; "autostart"].
  change (start_of (w_env w) "~/.config/autostart") with (cwd (w_env w)).
  simpl. destruct (lookup_node (w_fs w') (cwd (w_env w))) as [[|]|]; try done.
  change (step (cwd (w_env w)) "~") with ("~" :: cwd (w_env w)).
  by destruct (w_fs w' !! ("~" :: cwd (w_env w))) as [[|]|].
Qed.

Lemma unknown_home_is_relative_witness :
  w_fs (add "build" "/opt/build.sh" "python3" false "-v" w_homeless).2
    !! ["build.sh"; "autostart"; ".config"; "~"; "u"; "home"]
  = Some (File ("#!/bin/bash" +:+ nl +:+ nl +:+ "python3 /opt/build.sh -v" +:+ nl) 493).
Proof.
  apply (unknown_home_is_relative "build" "/opt/build.sh" "python3" "-v" w_homeless
           (add "build" "/opt/build.sh" "python3" false "-v" w_homeless).2);
    [reflexivity|reflexivity|by_eval].
Defined.

(** X8: the two scopes never meet.  Whatever the environment (any
    [HOME], set or not), the per-user startup directory is not the
    system-wide one and the system-wide one does not lie under it; so for
    identifiers without slash a per-user file and a system-wide file are
    never the same node. *)
Theorem scopes_are_distinct (e : environ) :
  canon e (startup_dir e false) ≠ canon e (startup_dir e true)
  ∧ ¬ inside (canon e (startup_dir e false)) (canon e (startup_dir e true))
  ∧ ∀ i j suf suf',
      has_char "/"%char i = false → has_char "/"%char j = false →
      suf ∈ [".sh"; ".desktop"] → suf' ∈ [".sh"; ".desktop"] →
      canon e (startup_dir e false +:+ "/" +:+ i +:+ suf)
      ≠ canon e (startup_dir e true +:+ "/" +:+ j +:+ suf').
Proof.
  destruct (user_dir_shape e) as [X HU].
  assert (canon e (startup_dir e false) ≠ canon e (startup_dir e true)) as Hne.
  { rewrite HU. done. }
  split; [done|]. split.
  - rewrite HU. intros Hin. eapply system_paths_outside_user; [exact Hin|].
    left. set_solver.
  - intros i j suf suf' Hi Hj Hsuf Hsuf'.
    destruct (names_no_slash i Hi) as [Hpi Hbi].
    destruct (names_no_slash j Hj) as [Hpj Hbj].
    assert (∀ x, x ∈ [".sh"; ".desktop"] →
                 has_char "/"%char x = false ∧ 3 ≤ String.length x) as Hok.
    { intros x Hx. repeat (apply elem_of_cons in Hx as [->|Hx]; [split; side|]).
      by apply elem_of_nil in Hx. }
    destruct (Hok _ Hsuf), (Hok _ Hsuf').
    rewrite !canon_entry by (done || apply startup_dir_nonempty).
    unfold holder. rewrite Hpi, Hpj. simpl. intros [= _ E]. by apply Hne.
Qed.

Lemma resolve_dot w d r :
  d ≠ "" → resolve w (d +:+ "/" +:+ "./" +:+ r) = resolve w (d +:+ "/" +:+ r).
Proof.
  intros Hd. unfold resolve, has_nul.
  change ("/" +:+ "./" +:+ r) with (String "/"%char ("." +:+ String "/"%char r)).
  change ("/" +:+ r) with (String "/"%char r).
  rewrite !has_char_app. simpl.
  destruct (has_char "000"%char d || has_char "000"%char r); [done|].
  rewrite !(decide_False (P := _ = "")) by (by destruct d).
  rewrite !start_of_app, !split_on_app_sep, !walk_app by done.
  destruct (walk (w_fs w) (start_of (w_env w) d) (split_on "/"%char d)) as [c|]; [|done].
  pose proof (split_on_nonempty "/"%char r).
  destruct (split_on "/"%char r) as [|x xs]; [done|]. simpl.
  change (step c ".") with c.
  by destruct (lookup_node (w_fs w) c) as [[|]|].
Qed.

(** X9: identifiers are not normalised.  For every identifier [i], the
    identifier [./i] names the same files: [check] gives the same answer
    for both on every machine, and after an [add] of [./i] that returns,
    [check] of [i] returns [True]. *)
Theorem dot_slash_is_the_same_registration (identifier : string) (system_wide : bool)
    (w : world) :
  check ("./" +:+ identifier) system_wide w = check identifier system_wide w
  ∧ ∀ script_location interpreter arguments w',
      add ("./" +:+ identifier) script_location interpreter system_wide arguments w
      = (Ok (), w') →
      check identifier system_wide w' = (Ok true, w').
Proof.
  assert (∀ w1, check ("./" +:+ identifier) system_wide w1 = check identifier system_wide w1)
    as Hsame.
  { intros w1. rewrite !check_run. unfold os_path_exists.
    rewrite !append_assoc.
    by rewrite (resolve_dot w1 _ (identifier +:+ ".desktop"))
      by apply startup_dir_nonempty. }
  split; [apply Hsame|].
  intros p n a w' (He & _ & _ & _ & Hreach & _ & [m Hm])%add_post.
  rewrite <- Hsame. apply check_true. rewrite He.
  apply exists_entry; [apply startup_dir_nonempty|side..|].
  split; [done|]. rewrite He. by eexists.
Qed.

Lemma land_666_no_exec x : Z.land (Z.land (octal [6; 6; 6]) x) (octal [1; 1; 1]) = 0%Z.
Proof.
  change (octal [6; 6; 6]) with 438%Z. change (octal [1; 1; 1]) with 73%Z.
  rewrite (Z.land_comm 438), <- Z.land_assoc. by rewrite Z.land_0_r.
Qed.

(** X10: the permission bits of the descriptor.  [add] never calls
    [chmod] on the descriptor: after an [add] that returns, a descriptor
    that was a regular file before keeps its permission bits, and one that
    was missing has 0666 masked by the umask, so no execute bit whatever
    the umask is. *)
Theorem add_descriptor_mode (identifier script_location interpreter : string)
    (system_wide : bool) (arguments : string) (w w' : world) :
  add identifier script_location interpreter system_wide arguments w = (Ok (), w') →
  let descriptor :=
    canon (w_env w) (startup_dir (w_env w) system_wide +:+ "/" +:+ identifier +:+ ".desktop") in
  ∃ (text : string) (mode : Z),
    w_fs w' !! descriptor = Some (File text mode)
    ∧ (∀ s m, w_fs w !! descriptor = Some (File s m) → mode = m)
    ∧ (w_fs w !! descriptor = None →
       mode = Z.land (octal [6; 6; 6]) (Z.lnot (umask (w_env w)))
       ∧ Z.land mode (octal [1; 1; 1]) = 0%Z).
Proof.
  intros (wM & HM & _ & _ & HcD & ->)%add_ok descriptor. subst descriptor.
  rewrite canon_entry by (side || apply startup_dir_nonempty).
  set (D := (base_name identifier +:+ ".desktop") :: _) in *.
  assert (w_fs wM !! D = w_fs w !! D ∧ w_env wM = w_env w) as [HD He].
  { destruct (makedirs_frame _ _ _ _ D HM) as [He [E|(_ & _ & E)]]; [done|].
    unfold can_write, D in HcD. rewrite lookup_node_cons in HcD. fold D in HcD.
    by rewrite E in HcD. }
  eexists _, (mode_after_open wM D). split; [simpl; by rewrite lookup_insert_eq|].
  unfold mode_after_open. rewrite HD, He. split.
  - by intros s m ->.
  - intros ->. split; [done|]. apply land_666_no_exec.
Qed.

Lemma add_descriptor_mode_witness :
  ∃ (text : string) (mode : Z),
    w_fs (add "build" "/opt/build.sh" "python3" false "-v" w0).2
      !! ["build.desktop"; "autostart"; ".config"; "u"; "home"]
    = Some (File text mode)
    ∧ (w_fs w0 !! ["build.desktop"; "autostart"; ".config"; "u"; "home"] = None →
       mode = 420%Z ∧ Z.land mode 73 = 0%Z).
Proof.
  destruct (add_descriptor_mode "build" "/opt/build.sh" "python3" false "-v" w0
              (add "build" "/opt/build.sh" "python3" false "-v" w0).2)
    as (text & mode & H1 & _ & H3); [by_eval|].
  exists text, mode. split; [exact H1|exact H3].
Defined.
